(** * GLIMPSE: the synthetic transit-spectroscopy generator

    A shallow embedding of [apps/web/src/app/api/mast/demo-data/[target]/route.ts]:
    the string hash, the linear-congruential generator, the Box-Muller sampler,
    the wavelength and phase grids, the transit model, the molecular features,
    the flux cube, the transmission-spectrum estimator, the binner and the
    light curve, then the vocabulary of the statements, then the properties
    proved about them.

    JavaScript numbers are IEEE-754 binary64 values.  The numeric code is
    written once, over an interface [JSNumber] of the operations the handler
    uses, and read at two instances:
    - [Float64]: Rocq's primitive binary64 floats, which are the numbers the
      handler computes with (NaN, infinities and rounding included);
    - [Ideal]: the real numbers, the arithmetic the formulas are meant in.
    [Math.log], [Math.cos], [Math.exp], [Math.pow] and [Math.PI] are left to the
    engine by ECMAScript; they form the second interface [MathLib].

    Integer-valued quantities (the hash, the generator's state, loop counters,
    the bin size) are integers of [Z]: every such value stays far below 2^53,
    where binary64 arithmetic on integers is exact.

    The variable [seed] captured by the generator's closure is modelled
    twice: as the state of the monad [Rand], for the statements about one
    invocation, and as a cell of the heap of the process ([Process]), for the
    statement about several invocations; [GET_in_process] relates the two. *)

From Stdlib Require Import String Ascii NArith ZArith List Bool Lia.
From Stdlib Require Import Floats Reals Lra FMapPositive.
Import ListNotations.

Set Warnings "-inexact-float,-abstract-large-number".

(** ** Numbers *)

Class JSNumber (num : Type) : Type := {
  of_Z : Z -> num;                 (* an integer literal or counter as a number *)
  nadd : num -> num -> num;
  nsub : num -> num -> num;
  nmul : num -> num -> num;
  ndiv : num -> num -> num;
  nneg : num -> num;
  nlt  : num -> num -> bool;       (* x < y *)
  nle  : num -> num -> bool;       (* x <= y *)
  Math_abs  : num -> num;
  Math_sqrt : num -> num
}.

Class MathLib (num : Type) : Type := {
  Math_PI  : num;
  Math_log : num -> num;
  Math_cos : num -> num;
  Math_exp : num -> num;
  Math_pow : num -> num -> num
}.

Declare Scope js_scope.
Delimit Scope js_scope with js.
Notation "x + y" := (nadd x y) : js_scope.
Notation "x - y" := (nsub x y) : js_scope.
Notation "x * y" := (nmul x y) : js_scope.
Notation "x / y" := (ndiv x y) : js_scope.
Notation "- x" := (nneg x) : js_scope.
Notation "x <? y" := (nlt x y) : js_scope.
Notation "x <=? y" := (nle x y) : js_scope.
Notation "x >? y" := (nlt y x) : js_scope.
Notation "x >=? y" := (nle y x) : js_scope.

(** Binary64.  [float_of_Z] is the correctly rounded conversion: the primitive
    one where the integer fits 62 bits, the specification's otherwise. *)
Definition float_of_Z (z : Z) : float :=
  if (Z.abs z <? 2 ^ 62)%Z then
    if (z <? 0)%Z then PrimFloat.opp (PrimFloat.of_uint63 (Uint63.of_Z (- z)))
    else PrimFloat.of_uint63 (Uint63.of_Z z)
  else SF2Prim (binary_normalize prec emax z 0 false).

#[export] Instance Float64 : JSNumber float := {
  of_Z := float_of_Z;
  nadd := PrimFloat.add;
  nsub := PrimFloat.sub;
  nmul := PrimFloat.mul;
  ndiv := PrimFloat.div;
  nneg := PrimFloat.opp;
  nlt  := PrimFloat.ltb;
  nle  := PrimFloat.leb;
  Math_abs  := PrimFloat.abs;
  Math_sqrt := PrimFloat.sqrt
}.

(** The reals. Comparisons are decided by the order's decidability. *)
Definition Rltb (x y : R) : bool := if Rlt_dec x y then true else false.
Definition Rleb (x y : R) : bool := if Rle_dec x y then true else false.

#[export] Instance Ideal : JSNumber R := {
  of_Z := IZR;
  nadd := Rplus;
  nsub := Rminus;
  nmul := Rmult;
  ndiv := Rdiv;
  nneg := Ropp;
  nlt  := Rltb;
  nle  := Rleb;
  Math_abs  := Rabs;
  Math_sqrt := sqrt
}.

(** [Math.pow] over the reals: an integral exponent is a repeated product,
    any other one goes through the exponential. *)
Definition Rpow_js (x y : R) : R :=
  if Req_dec_T (IZR (Int_part y)) y then powerRZ x (Int_part y) else Rpower x y.

#[export] Instance IdealMath : MathLib R := {
  Math_PI  := PI;
  Math_log := ln;
  Math_cos := cos;
  Math_exp := exp;
  Math_pow := Rpow_js
}.

(** A number that is integral or NaN: what [parseInt] returns and what the
    clamp and [Math.floor] keep.  The integer is the mathematical value; the
    double it rounds to differs from it only above 2^53, and the clamp to
    [5, 100] gives the same result on both. *)
Inductive jsint : Type :=
| NaNint
| Int (z : Z).

(** A string is its sequence of UTF-16 code units. *)
Definition js_string : Type := list Z.

Definition js (s : string) : js_string :=
  map (fun a => Z.of_N (N_of_ascii a)) (list_ascii_of_string s).

(** ** seededRandom, gaussianRandom, hashString *)

(** ToInt32: wrap to the signed 32-bit range. *)
Definition wrap32 (z : Z) : Z := ((z + 2 ^ 31) mod 2 ^ 32 - 2 ^ 31)%Z.

(** [hash << 5] on an int32. *)
Definition shl32 (h k : Z) : Z := wrap32 (Z.shiftl h k).

(** [hash = (hash << 5) - hash + str.charCodeAt(i); hash |= 0], over the code
    units in order, then [Math.abs]. *)
Definition hash_step (hash c : Z) : Z := wrap32 (shl32 hash 5 - hash + c).

Definition hashString (str : js_string) : Z :=
  Z.abs (fold_left hash_step str 0%Z).

(** The closure [seededRandom(seed)] owns one mutable variable, [seed]; a
    computation that calls it is a function of that variable's value. *)
Definition Rand (A : Type) : Type := Z -> A * Z.

Definition ret {A} (a : A) : Rand A := fun s => (a, s).
Definition bind {A B} (m : Rand A) (k : A -> Rand B) : Rand B :=
  fun s => let (a, s') := m s in k a s'.

Notation "x <- m ;; k" := (bind m (fun x => k))
  (at level 61, m at next level, right associativity).

(** [seed = (seed * 9301 + 49297) % 233280] ([%] is the truncated remainder). *)
Definition lcg (seed : Z) : Z := Z.rem (seed * 9301 + 49297) 233280.

Section Generator.
Context {num : Type} {N : JSNumber num}.
Local Open Scope js_scope.

(** The decimal literal [m / 10^e]; on binary64 the division of the two
    integers rounds to the double the literal denotes (see [literals]). *)
Definition dec (m : Z) (e : nat) : num := of_Z m / of_Z (10 ^ Z.of_nat e).

(** The value of [0 / 0]: NaN on binary64. It stands for [undefined] where
    an array is read out of range and the result enters arithmetic. *)
Definition NaN : num := of_Z 0 / of_Z 0.

Definition to_num (x : jsint) : num :=
  match x with
  | NaNint => NaN
  | Int z => of_Z z
  end.

(** One call of the closure: [return seed / 233280] after the update. *)
Definition rand : Rand num :=
  fun seed => let seed' := lcg seed in (of_Z seed' / of_Z 233280, seed').

Context {M : MathLib num}.

Definition gaussianRandom (mean stdDev : num) : Rand num :=
  u1 <- rand ;;
  u2 <- rand ;;
  let z := Math_sqrt (- (of_Z 2) * Math_log u1)
           * Math_cos (of_Z 2 * Math_PI * u2) in
  ret (z * stdDev + mean).

End Generator.

(** ** The request's bin size *)

(** StrWhiteSpaceChar: white space and line terminators. *)
Definition is_white_space (c : Z) : bool :=
  ((9 <=? c) && (c <=? 13) || (c =? 32) || (c =? 160) || (c =? 5760)
   || (8192 <=? c) && (c <=? 8202) || (c =? 8232) || (c =? 8233)
   || (c =? 8239) || (c =? 8287) || (c =? 12288) || (c =? 65279))%Z.

Fixpoint trim_start (s : js_string) : js_string :=
  match s with
  | c :: r => if is_white_space c then trim_start r else s
  | [] => []
  end.

(** The value of a code unit as a digit of the radix, if it is one. *)
Definition digit (radix c : Z) : option Z :=
  let v := (if (48 <=? c) && (c <=? 57) then c - 48
            else if (97 <=? c) && (c <=? 122) then c - 87
            else if (65 <=? c) && (c <=? 90) then c - 55
            else radix)%Z in
  if (v <? radix)%Z then Some v else None.

(** The longest prefix of digits. *)
Fixpoint digits (radix : Z) (s : js_string) : list Z :=
  match s with
  | c :: r => match digit radix c with
              | Some v => v :: digits radix r
              | None => []
              end
  | [] => []
  end.

(** [parseInt(s)] with no radix argument: leading white space, a sign, an
    optional [0x] prefix, then the digits; NaN when there is none. *)
Definition parseInt (s : js_string) : jsint :=
  let s1 := trim_start s in
  let '(sign, s2) := match s1 with
                     | 45%Z :: r => ((-1)%Z, r)
                     | 43%Z :: r => (1%Z, r)
                     | _ => (1%Z, s1)
                     end in
  let '(radix, s3) := match s2 with
                      | 48%Z :: 120%Z :: r => (16%Z, r)
                      | 48%Z :: 88%Z :: r => (16%Z, r)
                      | _ => (10%Z, s2)
                      end in
  match digits radix s3 with
  | [] => NaNint
  | ds => Int (sign * fold_left (fun a d => a * radix + d) ds 0)%Z
  end.

(** [Math.max] and [Math.min]: NaN when an argument is NaN. *)
Definition Math_max (x y : jsint) : jsint :=
  match x, y with
  | Int a, Int b => Int (Z.max a b)
  | _, _ => NaNint
  end.

Definition Math_min (x y : jsint) : jsint :=
  match x, y with
  | Int a, Int b => Int (Z.min a b)
  | _, _ => NaNint
  end.

(** [searchParams.get("bin_size") || "20"]: [get] gives [null] for a missing
    parameter, and the empty string is falsy too. *)
Definition or_default (v : option js_string) (d : js_string) : js_string :=
  match v with
  | None => d
  | Some [] => d
  | Some s => s
  end.

Definition binSize_of (bin_size : option js_string) : jsint :=
  Math_min (Int 100) (Math_max (Int 5) (parseInt (or_default bin_size (js "20")))).

(** [Math.floor(n / d)] for an integer [n]: the quotient rounded down ([d] is
    never 0 here: the clamp keeps it at 5 or above). *)
Definition floor_div (n : Z) (d : jsint) : jsint :=
  match d with
  | NaNint => NaNint
  | Int z => Int (n / z)
  end.

(** How often the body of [for (let k = 0; k < bound; k++)] runs: a
    comparison with NaN is false. *)
Definition trips (bound : jsint) : nat :=
  match bound with
  | NaNint => 0
  | Int z => Z.to_nat z
  end.

(** ** The handler *)

Definition nWavelengths : nat := 200.
Definition nTimes : nat := 100.

(** [a[j] = v]: replaces an element, or extends the array (the holes an
    assignment past the end leaves read as [d]). *)
Definition array_set {A} (d : A) (a : list A) (j : nat) (v : A) : list A :=
  if (j <? length a)%nat then firstn j a ++ v :: skipn (S j) a
  else a ++ repeat d (j - length a) ++ [v].

(** A counting loop whose body threads a state through the generator. *)
Fixpoint for_each {S} (l : list nat) (body : nat -> S -> Rand S) (st : S) : Rand S :=
  match l with
  | [] => ret st
  | i :: r => st' <- body i st ;; for_each r body st'
  end.

Record Sums (num : Type) : Type := {
  sum : num;
  sqSum : num;
  count : Z
}.
Arguments sum {num}.
Arguments sqSum {num}.
Arguments count {num}.

Record Spectrum (num : Type) : Type := {
  ts_wavelengths : list num;
  transit_depth_ppm : list num;
  transit_depth_err_ppm : list num
}.
Arguments ts_wavelengths {num}.
Arguments transit_depth_ppm {num}.
Arguments transit_depth_err_ppm {num}.

Record Response (num : Type) : Type := {
  target : js_string;
  data_source : string;
  wavelengths_out : list num;
  phase_out : list num;
  flux_out : list (list num);
  transmission_spectrum : Spectrum num;
  lightcurve_phase : list num;
  lightcurve_flux : list num;
  instrument : string;
  mode : string;
  wavelength_range : num * num;
  n_integrations : nat
}.
Arguments target {num}.
Arguments data_source {num}.
Arguments wavelengths_out {num}.
Arguments phase_out {num}.
Arguments flux_out {num}.
Arguments transmission_spectrum {num}.
Arguments lightcurve_phase {num}.
Arguments lightcurve_flux {num}.
Arguments instrument {num}.
Arguments mode {num}.
Arguments wavelength_range {num}.
Arguments n_integrations {num}.

Section Handler.
Context {num : Type} {N : JSNumber num} {M : MathLib num}.
Local Open Scope js_scope.

(** [0.6 + (i * (5.3 - 0.6)) / (nWavelengths - 1)] for [i] from 0. *)
Definition wavelengths : list num :=
  map (fun i => dec 6 1 + (of_Z (Z.of_nat i) * (dec 53 1 - dec 6 1))
                          / of_Z (Z.of_nat nWavelengths - 1))
      (seq 0 nWavelengths).

(** [-0.05 + (i * 0.1) / (nTimes - 1)] for [i] from 0. *)
Definition phase : list num :=
  map (fun i => - (dec 5 2) + (of_Z (Z.of_nat i) * dec 1 1)
                              / of_Z (Z.of_nat nTimes - 1))
      (seq 0 nTimes).

Definition transitDuration : num := dec 3 2.
Definition ingress : num := dec 5 3.

Definition transitModel (t depth : num) : num :=
  let halfDuration := transitDuration / of_Z 2 in
  let absT := Math_abs t in
  if absT >=? halfDuration then of_Z 1
  else
    let inIngressEgress := absT >? halfDuration - ingress in
    if inIngressEgress then
      let progress := (absT - halfDuration + ingress) / ingress in
      of_Z 1 - depth * (of_Z 1 - progress)
    else of_Z 1 - depth.

(** The entries of [molecularEffects], in insertion order. *)
Definition molecularEffects : list (string * list (num * num * num)) :=
  [ ("H2O"%string, [ (dec 135 2, dec 145 2, dec 3 3);
                     (dec 18 1, of_Z 2, dec 4 3);
                     (dec 27 1, of_Z 3, dec 5 3) ]);
    ("CO2"%string, [ (dec 42 1, dec 44 1, dec 6 3) ]);
    ("CO"%string,  [ (dec 45 1, of_Z 5, dec 4 3) ]);
    ("CH4"%string, [ (dec 22 1, dec 24 1, dec 2 3);
                     (dec 33 1, dec 35 1, dec 3 3) ]) ].

Definition baseDepth : num := dec 12 3.

(** The body of the loop over the features of one molecule. *)
Definition add_feature (wl depth : num) (f : num * num * num) : num :=
  let '(wlMin, wlMax, extraDepth) := f in
  if (wl >=? wlMin) && (wl <=? wlMax) then
    let center := (wlMin + wlMax) / of_Z 2 in
    let width := (wlMax - wlMin) / of_Z 2 in
    depth + extraDepth
            * Math_exp (- (Math_pow (wl - center) (of_Z 2))
                        / (of_Z 2 * Math_pow (width / of_Z 2) (of_Z 2)))
  else depth.

(** [let depth = baseDepth] followed by the two nested loops. *)
Definition channel_depth (wl : num) : num :=
  fold_left (fun depth entry => fold_left (add_feature wl) (snd entry) depth)
            molecularEffects baseDepth.

(** [flux[i][j]] read as a number. *)
Definition cell (flux : list (list num)) (i j : nat) : num :=
  nth j (nth i flux []) NaN.

(** [flux[i][j] = v] (row [i] exists: the rows are pushed beforehand). *)
Definition flux_set (flux : list (list num)) (i j : nat) (v : num)
  : list (list num) :=
  match nth_error flux i with
  | Some row => firstn i flux ++ array_set NaN row j v :: skipn (S i) flux
  | None => flux
  end.

(** One turn of the loop over [j]: the channel's depth, its column of the flux
    cube (one Gaussian draw per time sample, in order), and the raw depth. *)
Definition synth_channel (j : nat) (st : list (list num) * list num)
  : Rand (list (list num) * list num) :=
  let wl := nth j wavelengths NaN in
  let depth := channel_depth wl in
  flux' <- for_each (seq 0 nTimes)
             (fun i flux =>
                let baseFlux := transitModel (nth i phase NaN) depth in
                noise <- gaussianRandom (of_Z 0) (dec 5 4) ;;
                ret (flux_set flux i j (baseFlux + noise)))
             (fst st) ;;
  ret (flux', snd st ++ [depth * of_Z 1000000]).

(** The flux cube and [transitDepthRaw]. *)
Definition synthesize : Rand (list (list num) * list num) :=
  for_each (seq 0 nWavelengths) synth_channel (repeat [] nTimes, []).

Definition inTransitMask_of (ph : list num) : list bool :=
  map (fun p => Math_abs p <? transitDuration / of_Z 2) ph.

Definition outTransitMask_of (ph : list num) : list bool :=
  map (fun p => Math_abs p >? transitDuration / of_Z 2 + dec 1 2) ph.

Definition inTransitMask : list bool := inTransitMask_of phase.
Definition outTransitMask : list bool := outTransitMask_of phase.

Definition no_sums : Sums num := {| sum := of_Z 0; sqSum := of_Z 0; count := 0 |}.

Definition accumulate (a : Sums num) (x : num) : Sums num :=
  {| sum := sum a + x; sqSum := sqSum a + x * x; count := count a + 1 |}.

(** The loop over [i] for channel [j]: the two running sums. *)
Definition channel_sums (inMask outMask : list bool) (flux : list (list num))
    (j : nat) : Sums num * Sums num :=
  fold_left
    (fun acc i =>
       let a_in := if nth i inMask false
                   then accumulate (fst acc) (cell flux i j) else fst acc in
       let a_out := if nth i outMask false
                    then accumulate (snd acc) (cell flux i j) else snd acc in
       (a_in, a_out))
    (seq 0 nTimes) (no_sums, no_sums).

(** What is pushed on [transitDepth] and on [transitDepthErr] for channel [j]. *)
Definition estimate_channel (inMask outMask : list bool)
    (flux : list (list num)) (j : nat) : num * num :=
  let '(a_in, a_out) := channel_sums inMask outMask flux j in
  let inMean := sum a_in / of_Z (count a_in) in
  let outMean := sum a_out / of_Z (count a_out) in
  let inStd := Math_sqrt (sqSum a_in / of_Z (count a_in) - inMean * inMean) in
  let outStd := Math_sqrt (sqSum a_out / of_Z (count a_out) - outMean * outMean) in
  ((of_Z 1 - inMean / outMean) * of_Z 1000000,
   Math_sqrt (inStd * inStd + outStd * outStd) / outMean * of_Z 1000000).

Definition estimate (inMask outMask : list bool) (flux : list (list num))
  : list (num * num) :=
  map (estimate_channel inMask outMask flux) (seq 0 nWavelengths).

(** The loop over [k]: the sum of the values at [b * binSize + k]. *)
Definition bin_sum (binSize : jsint) (read : nat -> num) (b : nat) : num :=
  fold_left (fun s k => s + read (b * trips binSize + k)%nat)
            (seq 0 (trips binSize)) (of_Z 0).

Record Binned : Type := {
  wavelengthsBinned : list num;
  transitDepthBinned : list num;
  transitDepthErrBinned : list num;
  fluxBinned : list (list num)
}.

(** The loop over [b]; [fluxBinned[i]] receives one value per bin. *)
Definition bin (binSize : jsint) (wls depth err : list num)
    (flux : list (list num)) : Binned :=
  let nBins := floor_div (Z.of_nat nWavelengths) binSize in
  let bins := seq 0 (trips nBins) in
  {| wavelengthsBinned :=
       map (fun b => bin_sum binSize (fun idx => nth idx wls NaN) b
                     / to_num binSize) bins;
     transitDepthBinned :=
       map (fun b => bin_sum binSize (fun idx => nth idx depth NaN) b
                     / to_num binSize) bins;
     transitDepthErrBinned :=
       map (fun b => bin_sum binSize (fun idx => nth idx err NaN) b
                     / to_num binSize / Math_sqrt (to_num binSize)) bins;
     fluxBinned :=
       map (fun i => map (fun b => bin_sum binSize (cell flux i) b
                                   / to_num binSize) bins)
           (seq 0 nTimes) |}.

(** The mean of each row of the binned cube over the [nBins] channels. *)
Definition lightcurve (nBins : jsint) (fluxB : list (list num)) : list num :=
  map (fun i => fold_left (fun s j => s + cell fluxB i j)
                          (seq 0 (trips nBins)) (of_Z 0)
                / to_num nBins)
      (seq 0 nTimes).

Definition GET (tgt : js_string) (bin_size : option js_string) : Response num :=
  let binSize := binSize_of bin_size in
  let seed := hashString tgt in
  let '(flux, _) := fst (synthesize seed) in
  let spectrum := estimate inTransitMask outTransitMask flux in
  let binned := bin binSize wavelengths (map fst spectrum) (map snd spectrum) flux in
  let nBins := floor_div (Z.of_nat nWavelengths) binSize in
  {| target := tgt;
     data_source := "simulated";
     wavelengths_out := wavelengthsBinned binned;
     phase_out := phase;
     flux_out := fluxBinned binned;
     transmission_spectrum :=
       {| ts_wavelengths := wavelengthsBinned binned;
          transit_depth_ppm := transitDepthBinned binned;
          transit_depth_err_ppm := transitDepthErrBinned binned |};
     lightcurve_phase := phase;
     lightcurve_flux := lightcurve nBins (fluxBinned binned);
     instrument := "NIRSpec (simulated)";
     mode := "G395H";
     wavelength_range :=
       (nth 0 wavelengths NaN, nth (length wavelengths - 1) wavelengths NaN);
     n_integrations := nTimes |}.

End Handler.

(** ** The handler in the process that serves it *)

(** The handler's only mutable state that outlives a statement is the
    variable [seed] captured by the closure that [seededRandom] returns.
    Here that variable lives where JavaScript keeps it, in the heap of the
    process, beside the variables of every other closure alive there, those
    of earlier and of concurrent requests included. A closure is the index
    of its variable; a computation takes the heap and returns it. *)
Module Process.

Definition Heap : Type := list Z.
Definition closure : Type := nat.
Definition Run (A : Type) : Type := Heap -> A * Heap.

Definition ret {A} (a : A) : Run A := fun h => (a, h).
Definition bind {A B} (m : Run A) (k : A -> Run B) : Run B :=
  fun h => let (a, h') := m h in k a h'.

(** [seededRandom(seed)]: a new closure, over a variable of its own. *)
Definition seededRandom (seed : Z) : Run closure :=
  fun h => (length h, h ++ [seed]).

Fixpoint for_each {S} (l : list nat) (body : nat -> S -> Run S) (st : S) : Run S :=
  match l with
  | [] => ret st
  | i :: r => bind (body i st) (for_each r body)
  end.

Section Handler.
Context {num : Type} {N : JSNumber num} {M : MathLib num}.
Local Open Scope js_scope.

(** [rand()]: [seed = (seed * 9301 + 49297) % 233280; return seed / 233280]
    on the closure's variable. *)
Definition call (rand : closure) : Run num :=
  fun h => let seed' := lcg (nth rand h 0%Z) in
           (of_Z seed' / of_Z 233280, array_set 0%Z h rand seed').

Definition gaussianRandom (rand : closure) (mean stdDev : num) : Run num :=
  bind (call rand) (fun u1 =>
  bind (call rand) (fun u2 =>
  let z := Math_sqrt (- (of_Z 2) * Math_log u1)
           * Math_cos (of_Z 2 * Math_PI * u2) in
  ret (z * stdDev + mean))).

Definition synth_channel (rand : closure) (j : nat)
    (st : list (list num) * list num) : Run (list (list num) * list num) :=
  let wl := nth j wavelengths NaN in
  let depth := channel_depth wl in
  bind (for_each (seq 0 nTimes)
          (fun i flux =>
             let baseFlux := transitModel (nth i phase NaN) depth in
             bind (gaussianRandom rand (of_Z 0) (dec 5 4)) (fun noise =>
             ret (flux_set flux i j (baseFlux + noise))))
          (fst st)) (fun flux' =>
  ret (flux', snd st ++ [depth * of_Z 1000000])).

Definition synthesize (rand : closure) : Run (list (list num) * list num) :=
  for_each (seq 0 nWavelengths) (synth_channel rand) (repeat [] nTimes, []).

(** One invocation of the handler: [const rand = seededRandom(hashString(target))]
    and then the pipeline, which reaches the heap through [rand] alone. *)
Definition GET (tgt : js_string) (bin_size : option js_string)
  : Run (Response num) :=
  let binSize := binSize_of bin_size in
  let seed := hashString tgt in
  bind (seededRandom seed) (fun rand =>
  bind (synthesize rand) (fun cube =>
  let flux := fst cube in
  let spectrum := estimate inTransitMask outTransitMask flux in
  let binned := bin binSize wavelengths (map fst spectrum) (map snd spectrum) flux in
  let nBins := floor_div (Z.of_nat nWavelengths) binSize in
  ret {| target := tgt;
         data_source := "simulated";
         wavelengths_out := wavelengthsBinned binned;
         phase_out := phase;
         flux_out := fluxBinned binned;
         transmission_spectrum :=
           {| ts_wavelengths := wavelengthsBinned binned;
              transit_depth_ppm := transitDepthBinned binned;
              transit_depth_err_ppm := transitDepthErrBinned binned |};
         lightcurve_phase := phase;
         lightcurve_flux := lightcurve nBins (fluxBinned binned);
         instrument := "NIRSpec (simulated)";
         mode := "G395H";
         wavelength_range :=
           (nth 0 wavelengths NaN, nth (length wavelengths - 1) wavelengths NaN);
         n_integrations := nTimes |})).

(** A computation on the heap does what a computation on one variable does,
    on the variable of the closure [c], and leaves the rest of the heap. *)
Definition runs_on {A} (c : closure) (m : Rand A) (mh : Run A) : Prop :=
  forall h : Heap, (c < length h)%nat ->
    mh h = (fst (m (nth c h 0%Z)), array_set 0%Z h c (snd (m (nth c h 0%Z)))).

End Handler.

End Process.

(** * Vocabulary of the statements *)

(** A check of [p] on the [n] integers from [z]. *)
Fixpoint all_from (n : nat) (z : Z) (p : Z -> bool) : bool :=
  match n with
  | O => true
  | S k => p z && all_from k (z + 1) p
  end.

(** The value returned for a state: in [0, 1), and positive unless the state
    is 0. Checked on each of the 233280 states. *)
Definition unit_interval (s : Z) : bool :=
  let u := ndiv (of_Z s) (of_Z 233280) : float in
  nle (of_Z 0) u && nlt u (of_Z 1) && ((s =? 0)%Z || nlt (of_Z 0) u).

(** Every earlier point is below every later one. *)
Definition ascending (l : list float) : bool :=
  forallb (fun i => forallb (fun j => nlt (nth i l NaN) (nth j l NaN))
                            (seq (S i) (length l - S i)))
          (seq 0 (length l)).

(** Consecutive points are one step apart, up to the rounding of the sums:
    the difference is within [tol] of [step]. *)
Definition even_steps (l : list float) (step tol : float) : bool :=
  forallb (fun i => nle (Math_abs (nsub (nsub (nth (S i) l NaN) (nth i l NaN)) step)) tol)
          (seq 0 (length l - 1)).

(** How many entries of a mask are set. *)
Definition count_true (mask : list bool) : nat :=
  length (filter (fun b : bool => b) mask).

(** The [B] consecutive values of bin [b]. *)
Definition chunk {A} (B b : nat) (l : list A) : list A :=
  firstn B (skipn (b * B) l).

(** [Math.floor] on binary64: the integer below the value [m * 2^e]. *)
Definition float_floor (x : float) : float :=
  match Prim2SF x with
  | S754_finite s m e =>
      let z := if s then Z.neg m else Z.pos m in
      float_of_Z (if (0 <=? e)%Z then z * 2 ^ e else z / 2 ^ (- e))
  | _ => x
  end.

(** For one bin size: the quotient rounded down, and the loop tests up to
    200. *)
Definition bin_count_agrees (B : Z) : bool :=
  PrimFloat.Leibniz.eqb (float_floor (PrimFloat.div (float_of_Z 200) (float_of_Z B)))
                        (float_of_Z (200 / B))
  && all_from 201 0 (fun k => Bool.eqb (PrimFloat.ltb (float_of_Z k) (float_of_Z B))
                                       (k <? B)%Z).

(** A math library for closed examples. ECMAScript leaves [Math.log],
    [Math.cos], [Math.exp] and [Math.pow] to the engine and fixes their
    special values; this instance has [log(0) = -Infinity], [cos(0) = 1],
    [exp(0) = 1], exact squares, and the first term of a series elsewhere.
    The theorems hold for every library; this one only instantiates them. *)
Definition SampleMath : MathLib float := {|
  Math_PI  := 0x1.921fb54442d18p+1%float;
  Math_log := fun x => if PrimFloat.eqb x 0 then neg_infinity
                       else (2 * ((x - 1) / (x + 1)))%float;
  Math_cos := fun x => (1 - x * x / 2)%float;
  Math_exp := fun x => (1 / (1 - x))%float;
  Math_pow := fun x y => if PrimFloat.eqb y 2 then (x * x)%float
                         else if PrimFloat.eqb y 1 then x
                         else if PrimFloat.eqb y 0 then 1%float
                         else nan
|}.

(** The table of the states reached in [n] calls from [s], each with the
    number of the call that first gave it ([k] is the number for [s]). *)
Fixpoint visit (n : nat) (s : Z) (k : N) (tbl : PositiveMap.t N)
  : PositiveMap.t N :=
  match n with
  | O => tbl
  | S n' => visit n' (lcg s) (N.succ k) (PositiveMap.add (Z.to_pos (s + 1)) k tbl)
  end.

(** The table of one full cycle from state 0. *)
Definition orbit_table : PositiveMap.t N :=
  visit 233280 0 0 (PositiveMap.empty N).

(** Every entry of a table records a state and a number of calls that
    reaches it from 0. *)
Definition table_sound (tbl : PositiveMap.t N) : Prop :=
  forall (p : positive) (k : N),
    PositiveMap.find p tbl = Some k ->
    Z.pos p = (Nat.iter (N.to_nat k) lcg 0 + 1)%Z.

(** The state is in the table, reached in fewer than 233280 calls. *)
Definition reached (r : Z) : bool :=
  match PositiveMap.find (Z.to_pos (r + 1)) orbit_table with
  | Some k => (k <? 233280)%N
  | None => false
  end.

Section Vocabulary.
Context {num : Type} {N : JSNumber num} {M : MathLib num}.
Local Open Scope js_scope.

(** All (min, max, extra-depth) ranges, molecule after molecule. *)
Definition ranges : list (num * num * num) := concat (map snd molecularEffects).

(** The range's interval contains the wavelength. *)
Definition contains (wl : num) (f : num * num * num) : bool :=
  let '(wlMin, wlMax, _) := f in (wl >=? wlMin) && (wl <=? wlMax).

(** The Gaussian bump of a range at [wl]: centred at the midpoint, of
    deviation half the half-width, scaled by the extra depth. *)
Definition bump (wl : num) (f : num * num * num) : num :=
  let '(wlMin, wlMax, extraDepth) := f in
  let midpoint := (wlMin + wlMax) / of_Z 2 in
  let halfWidth := (wlMax - wlMin) / of_Z 2 in
  extraDepth * Math_exp (- (Math_pow (wl - midpoint) (of_Z 2))
                         / (of_Z 2 * Math_pow (halfWidth / of_Z 2) (of_Z 2))).

(** The two tests of the masks. *)
Definition in_transit (p : num) : bool :=
  Math_abs p <? transitDuration / of_Z 2.

Definition out_of_transit (p : num) : bool :=
  Math_abs p >? transitDuration / of_Z 2 + dec 1 2.

(** The flux of channel [j] at the time samples selected by [sel], in order. *)
Definition selected (sel : nat -> bool) (flux : list (list num)) (j : nat)
  : list num :=
  map (fun i => cell flux i j) (filter sel (seq 0 nTimes)).

(** Population statistics of a sample, summed from the left. *)
Definition mean (l : list num) : num :=
  fold_left nadd l (of_Z 0) / of_Z (Z.of_nat (length l)).

Definition mean_of_squares (l : list num) : num :=
  fold_left (fun s x => s + x * x) l (of_Z 0) / of_Z (Z.of_nat (length l)).

Definition std (l : list num) : num :=
  Math_sqrt (mean_of_squares l - mean l * mean l).

Definition depth_ppm (xin xout : list num) : num :=
  (of_Z 1 - mean xin / mean xout) * of_Z 1000000.

Definition depth_err_ppm (xin xout : list num) : num :=
  Math_sqrt (std xin * std xin + std xout * std xout) / mean xout
  * of_Z 1000000.

(** The unweighted mean of the values of a bin of size [B]. *)
Definition average (l : list num) (B : Z) : num :=
  fold_left nadd l (of_Z 0) / of_Z B.

(** The value written to [flux[i][j]] when the generator starts at [seed]:
    the model at the sample's phase and the channel's depth, plus the noise
    drawn from the state [2 * (j * nTimes + i)] calls after the seed. *)
Definition cell_value (seed : Z) (i j : nat) : num :=
  transitModel (nth i phase NaN) (channel_depth (nth j wavelengths NaN))
  + fst (gaussianRandom (of_Z 0) (dec 5 4)
           (Nat.iter (2 * (j * nTimes + i)) lcg seed)).

(** What holds after the samples before [i] of channel [j] are written. *)
Definition column_written (seed : Z) (flux0 : list (list num)) (j i : nat)
    (flux : list (list num)) (s : Z) : Prop :=
  s = Nat.iter (2 * (j * nTimes + i)) lcg seed
  /\ length flux = nTimes
  /\ forall i', (i' < nTimes)%nat ->
       nth i' flux [] = if (i' <? i)%nat
                        then nth i' flux0 [] ++ [cell_value seed i' j]
                        else nth i' flux0 [].

(** What holds after the channels before [j] are synthesized. *)
Definition cube_written (seed : Z) (j : nat)
    (st : list (list num) * list num) (s : Z) : Prop :=
  s = Nat.iter (2 * (j * nTimes)) lcg seed
  /\ length (fst st) = nTimes
  /\ (forall i, (i < nTimes)%nat ->
        nth i (fst st) [] = map (cell_value seed i) (seq 0 j))
  /\ snd st = map (fun j' => channel_depth (nth j' wavelengths NaN)
                             * of_Z 1000000) (seq 0 j).

End Vocabulary.

(** ** Vocabulary of the statements on the molecular features *)

Section FeatureVocabulary.
Context {num : Type} {N : JSNumber num} {M : MathLib num}.
Local Open Scope js_scope.

(** The argument of [Math.exp] in the bump of a range at [wl]. *)
Definition bump_exponent (wl : num) (f : num * num * num) : num :=
  let '(wlMin, wlMax, _) := f in
  let midpoint := (wlMin + wlMax) / of_Z 2 in
  let halfWidth := (wlMax - wlMin) / of_Z 2 in
  - (Math_pow (wl - midpoint) (of_Z 2))
  / (of_Z 2 * Math_pow (halfWidth / of_Z 2) (of_Z 2)).

End FeatureVocabulary.

(** ** Vocabulary of the sampler's statements *)

(** The variate returned when the generator's state becomes [s]. *)
Definition variate (s : Z) : float := ndiv (of_Z s) (of_Z 233280).

(** What the statements on the sampler ask of the engine's [Math.log] and
    [Math.cos], on the 233280 variates only. The natural logarithm of a
    variate [s / 233280 >= 1 / 233280] lies between -13 and 0 (it is at least
    -12.36), and a cosine is a finite number. *)
Definition log_in_range (M : MathLib float) (s : Z) : bool :=
  nle (of_Z (-13)) (Math_log (variate s)) && nle (Math_log (variate s)) (of_Z 0).

Definition cos_finite (M : MathLib float) (s : Z) : bool :=
  nlt (Math_abs (Math_cos (nmul (nmul (of_Z 2) Math_PI) (variate s)))) infinity.

(** [Math.log(0)] is [-Infinity] (ECMAScript fixes this value); the cosine at
    the variate that follows a zero one, [2 * PI * 49297 / 233280], is
    positive (it is 0.2405). *)
Definition log_cos_on_variates (M : MathLib float) : Prop :=
  Math_log (of_Z 0) = neg_infinity
  /\ (forall s : Z, (0 < s < 233280)%Z -> log_in_range M s = true)
  /\ (forall s : Z, (0 <= s < 233280)%Z -> cos_finite M s = true)
  /\ nlt (of_Z 0) (Math_cos (nmul (nmul (of_Z 2) Math_PI) (variate 49297))) = true.

(** ** Vocabulary of rounding on binary64 *)

(** A result of the given sign that is not NaN. *)
Definition signed (s : bool) (x : spec_float) : Prop :=
  x = S754_zero s \/ (exists m e, x = S754_finite s m e) \/ x = S754_infinity s.

(** Zero, or finite of either sign. *)
Definition finite_or_zero (x : spec_float) : Prop :=
  (exists s, x = S754_zero s) \/ (exists s m e, x = S754_finite s m e).

(** Zero of either sign, or positive: what [0 <= x] says of a float. *)
Definition nonneg (x : spec_float) : Prop :=
  (exists s, x = S754_zero s) \/ (exists m e, x = S754_finite false m e)
  \/ x = S754_infinity false.

(** One step of [shr_fexp] on a mantissa [m >= 0] at exponent [e]: nothing
    when [e] is already the exponent of the format, else the quotient by the
    power of two that brings it there. *)
Definition shifted (m e m' e' : Z) : Prop :=
  let e1 := fexp prec emax (Zdigits2 m + e) in
  (e1 <= e /\ m' = m /\ e' = e)%Z
  \/ (e < e1 /\ m' = m / 2 ^ (e1 - e) /\ e' = e1)%Z.

(** The float built from the last mantissa and exponent. *)
Definition rounded (sx : bool) (m e : Z) : spec_float :=
  match m with
  | Z0 => S754_zero sx
  | Zpos p => if (e <=? emax - prec)%Z then S754_finite sx p e
              else S754_infinity sx
  | Zneg _ => S754_nan
  end.

(** [md * 2^ed <= m * 2^e], on integers. *)
Definition val_ge (md : positive) (ed : Z) (m : positive) (e : Z) : Prop :=
  forall k : Z, (k <= ed -> k <= e ->
                 Z.pos md * 2 ^ (ed - k) <= Z.pos m * 2 ^ (e - k))%Z.

(** A float at least the positive finite float [(md, ed)]: in value, and in
    the order [SFcompare] reads off exponents and mantissas. *)
Definition ge_float (md : positive) (ed : Z) (x : spec_float) : Prop :=
  x = S754_infinity false
  \/ exists m e, x = S754_finite false m e /\ val_ge md ed m e
                 /\ (ed < e \/ (ed = e /\ (md <= m)%positive))%Z.

(** * Properties *)

(** ** Lists and counting loops *)

Lemma nth_map_seq {A} (f : nat -> A) (n i : nat) (d : A) :
  (i < n)%nat -> nth i (map f (seq 0 n)) d = f i.
Proof.
  intros Hi.
  rewrite (nth_indep _ d (f 0%nat)) by (rewrite length_map, length_seq; exact Hi).
  rewrite (map_nth f (seq 0 n) 0%nat i), seq_nth by exact Hi.
  reflexivity.
Qed.

Lemma all_from_spec (n : nat) (p : Z -> bool) :
  forall z, all_from n z p = true ->
  forall x, (z <= x < z + Z.of_nat n)%Z -> p x = true.
Proof.
  induction n as [|n IH]; intros z H x Hx.
  - simpl in Hx. lia.
  - simpl in H. apply andb_prop in H. destruct H as [Hz Hr].
    destruct (Z.eq_dec x z) as [->|Hne]; [exact Hz|].
    apply (IH (z + 1)%Z Hr). lia.
Qed.

(** ** Binary64 facts *)

Lemma Prim2SF_inj (x y : float) : Prim2SF x = Prim2SF y -> x = y.
Proof.
  intros H.
  rewrite <- (SF2Prim_Prim2SF x), <- (SF2Prim_Prim2SF y), H.
  reflexivity.
Qed.

Lemma abs_opp (t : float) : PrimFloat.abs (PrimFloat.opp t) = PrimFloat.abs t.
Proof.
  apply Prim2SF_inj. rewrite !abs_spec, opp_spec.
  destruct (Prim2SF t); reflexivity.
Qed.

Lemma SFcompare_Lt_Gt (a b : spec_float) :
  SFcompare a b = Some Lt -> SFcompare b a = Some Gt.
Proof.
  destruct a as [sa|sa| |sa ma ea], b as [sb|sb| |sb mb eb]; simpl;
    try discriminate; try (destruct sa; discriminate);
    try (destruct sb; discriminate);
    try (destruct sa, sb; (discriminate || reflexivity)).
  destruct sa, sb; try discriminate; try reflexivity;
    rewrite (Z.compare_antisym ea eb); destruct (ea ?= eb)%Z; simpl;
    try discriminate; try reflexivity;
    replace (Pos.compare_cont Eq mb ma)
      with (CompOpp (Pos.compare_cont Eq ma mb))
      by apply (Pos.compare_cont_antisym ma mb Eq);
    destruct (Pos.compare_cont Eq ma mb); simpl; intros;
    try discriminate; reflexivity.
Qed.

Lemma ltb_not_leb (x y : float) :
  PrimFloat.ltb x y = true -> PrimFloat.leb y x = false.
Proof.
  rewrite ltb_spec, leb_spec. unfold SFltb, SFleb.
  destruct (SFcompare (Prim2SF x) (Prim2SF y)) as [[ | | ]|] eqn:E;
    try discriminate.
  intros _. rewrite (SFcompare_Lt_Gt _ _ E). reflexivity.
Qed.

(** NaN is absorbing. *)
Lemma nan_add_l (x : float) : PrimFloat.add nan x = nan.
Proof. apply Prim2SF_inj. rewrite add_spec. reflexivity. Qed.

Lemma nan_add_r (x : float) : PrimFloat.add x nan = nan.
Proof.
  apply Prim2SF_inj. rewrite add_spec.
  destruct (Prim2SF x) as [[|]|[|]| |[|] m e]; reflexivity.
Qed.

Lemma nan_sub_l (x : float) : PrimFloat.sub nan x = nan.
Proof. apply Prim2SF_inj. rewrite sub_spec. reflexivity. Qed.

Lemma nan_sub_r (x : float) : PrimFloat.sub x nan = nan.
Proof.
  apply Prim2SF_inj. rewrite sub_spec.
  destruct (Prim2SF x) as [[|]|[|]| |[|] m e]; reflexivity.
Qed.

Lemma nan_mul_l (x : float) : PrimFloat.mul nan x = nan.
Proof. apply Prim2SF_inj. rewrite mul_spec. reflexivity. Qed.

Lemma nan_mul_r (x : float) : PrimFloat.mul x nan = nan.
Proof.
  apply Prim2SF_inj. rewrite mul_spec.
  destruct (Prim2SF x) as [[|]|[|]| |[|] m e]; reflexivity.
Qed.

Lemma nan_div_l (x : float) : PrimFloat.div nan x = nan.
Proof. apply Prim2SF_inj. rewrite div_spec. reflexivity. Qed.

Lemma nan_div_r (x : float) : PrimFloat.div x nan = nan.
Proof.
  apply Prim2SF_inj. rewrite div_spec.
  destruct (Prim2SF x) as [[|]|[|]| |[|] m e]; reflexivity.
Qed.

(** The decimal literals of the handler: [dec m e] is the double the literal
    denotes. *)
Lemma literals :
  (@dec float _ 6 1 = 0.6 /\ @dec float _ 53 1 = 5.3 /\ @dec float _ 5 2 = 0.05
   /\ @dec float _ 1 1 = 0.1 /\ @dec float _ 3 2 = 0.03
   /\ @dec float _ 5 3 = 0.005 /\ @dec float _ 12 3 = 0.012
   /\ @dec float _ 5 4 = 0.0005 /\ @dec float _ 1 2 = 0.01)%float
  /\ (@dec float _ 135 2 = 1.35 /\ @dec float _ 145 2 = 1.45
      /\ @dec float _ 18 1 = 1.8 /\ @dec float _ 27 1 = 2.7
      /\ @dec float _ 42 1 = 4.2 /\ @dec float _ 44 1 = 4.4
      /\ @dec float _ 45 1 = 4.5 /\ @dec float _ 22 1 = 2.2
      /\ @dec float _ 24 1 = 2.4 /\ @dec float _ 33 1 = 3.3
      /\ @dec float _ 35 1 = 3.5)%float
  /\ (@dec float _ 3 3 = 0.003 /\ @dec float _ 4 3 = 0.004
      /\ @dec float _ 6 3 = 0.006 /\ @dec float _ 2 3 = 0.002
      /\ @NaN float _ = nan)%float.
Proof. vm_compute. repeat split. Qed.

(** ** Rounding on binary64 *)

Lemma iter_pos_invariant {A} (P : A -> Prop) (f : A -> A) :
  (forall x, P x -> P (f x)) ->
  forall (n : positive) (x : A), P x -> P (SpecFloat.iter_pos f n x).
Proof.
  intros Hf. induction n as [n IH|n IH|]; intros x Hx; cbn [SpecFloat.iter_pos].
  - apply IH, IH, Hf, Hx.
  - apply IH, IH, Hx.
  - apply Hf, Hx.
Qed.

Lemma shr_1_nonneg (mrs : shr_record) :
  (0 <= shr_m mrs)%Z -> (0 <= shr_m (shr_1 mrs))%Z.
Proof.
  destruct mrs as [m r s]. cbn [shr_m]. intros H.
  destruct m as [|[p|p|]|p]; cbn; lia.
Qed.

Lemma shr_1_half (mrs : shr_record) :
  (0 <= shr_m mrs)%Z -> shr_m (shr_1 mrs) = (shr_m mrs / 2)%Z.
Proof.
  destruct mrs as [m r s]. cbn [shr_m]. intros H.
  destruct m as [|[p|p|]|p]; cbn [shr_1 shr_m]; try lia.
  - reflexivity.
  - apply Z.div_unique with 1%Z; lia.
  - apply Z.div_unique with 0%Z; lia.
  - reflexivity.
Qed.

Lemma iter_shr_1 (n : positive) :
  forall mrs : shr_record, (0 <= shr_m mrs)%Z ->
    (0 <= shr_m (SpecFloat.iter_pos shr_1 n mrs))%Z
    /\ shr_m (SpecFloat.iter_pos shr_1 n mrs) = (shr_m mrs / 2 ^ Z.pos n)%Z.
Proof.
  induction n as [n IH|n IH|]; intros mrs H; cbn [SpecFloat.iter_pos].
  - pose proof (shr_1_nonneg mrs H) as H1.
    destruct (IH _ H1) as [H2 E2]. destruct (IH _ H2) as [H3 E3].
    split; [exact H3|]. rewrite E3, E2, shr_1_half by exact H.
    rewrite !Z.div_div by lia. f_equal.
    rewrite Pos2Z.inj_xI.
    replace (2 * Z.pos n + 1)%Z with (1 + Z.pos n + Z.pos n)%Z by lia.
    rewrite !Z.pow_add_r by lia. change (2 ^ 1)%Z with 2%Z. ring.
  - destruct (IH _ H) as [H2 E2]. destruct (IH _ H2) as [H3 E3].
    split; [exact H3|]. rewrite E3, E2.
    rewrite Z.div_div by lia. f_equal.
    replace (Z.pos n~0)%Z with (Z.pos n + Z.pos n)%Z by lia.
    rewrite Z.pow_add_r by lia. reflexivity.
  - split; [apply shr_1_nonneg; exact H|].
    rewrite shr_1_half by exact H. reflexivity.
Qed.

Lemma shr_fexp_shifted (m e : Z) (l : location) :
  (0 <= m)%Z ->
  shifted m e (shr_m (fst (shr_fexp prec emax m e l)))
              (snd (shr_fexp prec emax m e l)).
Proof.
  intros H. unfold shifted, shr_fexp, shr.
  set (e1 := fexp prec emax (Zdigits2 m + e)).
  assert (H0 : shr_m (shr_record_of_loc m l) = m)
    by (destruct l as [|[ | | ]]; reflexivity).
  destruct (e1 - e)%Z as [|p|p] eqn:E; cbn [fst snd].
  - left. rewrite H0. lia.
  - right. destruct (iter_shr_1 p (shr_record_of_loc m l)) as [_ E2];
      [rewrite H0; exact H|].
    rewrite E2, H0. lia.
  - left. rewrite H0. lia.
Qed.

Lemma shifted_bounds (m e m' e' : Z) :
  (0 <= m)%Z -> shifted m e m' e' ->
  (0 <= m' <= m /\ e <= e'
   /\ e' <= Z.max e (fexp prec emax (Zdigits2 m + e)))%Z.
Proof.
  intros H [(H1 & -> & ->)|(H1 & -> & ->)]; [lia|].
  assert (P : (0 < 2 ^ (fexp prec emax (Zdigits2 m + e) - e))%Z)
    by (apply Z.pow_pos_nonneg; lia).
  split; [|lia]. split; [apply Z.div_pos; lia|].
  apply Z.div_le_upper_bound; [exact P|]. nia.
Qed.

Lemma round_nearest_even_bounds (m : Z) (l : location) :
  (m <= round_nearest_even m l <= m + 1)%Z.
Proof.
  unfold round_nearest_even.
  destruct l as [|[ | | ]]; try lia. destruct (Z.even m); lia.
Qed.

(** The result of rounding a mantissa [mx >= 0] at exponent [ex]: two
    shifts with a rounding of the mantissa between them. *)
Lemma binary_round_aux_cases (sx : bool) (mx ex : Z) (lx : location) :
  (0 <= mx)%Z ->
  exists m1 e1 m2 m3 e3 : Z,
    shifted mx ex m1 e1 /\ (m1 <= m2 <= m1 + 1)%Z /\ shifted m2 e1 m3 e3
    /\ binary_round_aux prec emax sx mx ex lx = rounded sx m3 e3.
Proof.
  intros H. unfold binary_round_aux.
  pose proof (shr_fexp_shifted mx ex lx H) as S1.
  destruct (shr_fexp prec emax mx ex lx) as [mrs' e']. cbn [fst snd] in S1.
  pose proof (shifted_bounds _ _ _ _ H S1) as (B1 & _).
  pose proof (round_nearest_even_bounds (shr_m mrs') (loc_of_shr_record mrs'))
    as R.
  pose proof (shr_fexp_shifted
                (round_nearest_even (shr_m mrs') (loc_of_shr_record mrs'))
                e' loc_Exact ltac:(lia)) as S2.
  destruct (shr_fexp prec emax
              (round_nearest_even (shr_m mrs') (loc_of_shr_record mrs')) e'
              loc_Exact) as [mrs'' e''].
  cbn [fst snd] in S2.
  exists (shr_m mrs'), e',
         (round_nearest_even (shr_m mrs') (loc_of_shr_record mrs')),
         (shr_m mrs''), e''.
  split; [exact S1|]. split; [exact R|]. split; [exact S2|]. reflexivity.
Qed.

Lemma rounded_signed (sx : bool) (m e : Z) :
  (0 <= m)%Z -> signed sx (rounded sx m e).
Proof.
  intros H. unfold rounded. destruct m as [|p|p]; [left; reflexivity| |lia].
  destruct (e <=? emax - prec)%Z.
  - right; left. exists p, e. reflexivity.
  - right; right. reflexivity.
Qed.

(** Rounding a non-negative mantissa gives zero, a finite number or an
    infinity of the requested sign: never NaN. *)
Lemma binary_round_aux_signed (sx : bool) (mx ex : Z) (lx : location) :
  (0 <= mx)%Z -> signed sx (binary_round_aux prec emax sx mx ex lx).
Proof.
  intros H.
  destruct (binary_round_aux_cases sx mx ex lx H)
    as (m1 & e1 & m2 & m3 & e3 & S1 & R & S2 & ->).
  apply rounded_signed.
  pose proof (shifted_bounds _ _ _ _ H S1) as (B1 & _).
  assert (H2 : (0 <= m2)%Z) by lia.
  pose proof (shifted_bounds _ _ _ _ H2 S2) as (B2 & _). lia.
Qed.

Lemma signed_not_nan (s : bool) (x : spec_float) : signed s x -> x <> S754_nan.
Proof.
  intros [->|[(m & e & ->)| ->]]; discriminate.
Qed.

Lemma signed_nonneg (x : spec_float) : signed false x -> nonneg x.
Proof.
  intros [->|[(m & e & ->)| ->]].
  - left. exists false. reflexivity.
  - right; left. exists m, e. reflexivity.
  - right; right. reflexivity.
Qed.

(** The product of two numbers that are finite or zero is not NaN. *)
Lemma SFmul_finite (x y : spec_float) :
  finite_or_zero x -> finite_or_zero y -> SFmul prec emax x y <> S754_nan.
Proof.
  intros [(sx & ->)|(sx & mx & ex & ->)] [(sy & ->)|(sy & my & ey & ->)];
    cbn [SFmul]; try discriminate.
  apply (signed_not_nan (xorb sx sy)). apply binary_round_aux_signed. lia.
Qed.

(** *** The number of binary digits *)

Lemma digits2_pos_spec (p : positive) :
  (2 ^ (Z.pos (digits2_pos p) - 1) <= Z.pos p < 2 ^ Z.pos (digits2_pos p))%Z.
Proof.
  induction p as [p IH|p IH|]; cbn [digits2_pos].
  - rewrite Pos2Z.inj_succ.
    replace (Z.succ (Z.pos (digits2_pos p)) - 1)%Z
      with (Z.succ (Z.pos (digits2_pos p) - 1))%Z by lia.
    rewrite !Z.pow_succ_r by lia. lia.
  - rewrite Pos2Z.inj_succ.
    replace (Z.succ (Z.pos (digits2_pos p)) - 1)%Z
      with (Z.succ (Z.pos (digits2_pos p) - 1))%Z by lia.
    rewrite !Z.pow_succ_r by lia. lia.
  - cbn. lia.
Qed.

Lemma Zdigits2_le (m k : Z) :
  (0 <= m < 2 ^ k)%Z -> (0 <= k)%Z -> (0 <= Zdigits2 m <= k)%Z.
Proof.
  intros H Hk. destruct m as [|p|p]; [cbn; lia| |lia].
  cbn [Zdigits2]. pose proof (digits2_pos_spec p) as D.
  split; [lia|].
  assert (L : (2 ^ (Z.pos (digits2_pos p) - 1) < 2 ^ k)%Z) by lia.
  apply Z.pow_lt_mono_r_iff in L; lia.
Qed.

Lemma digits2_pos_gt (p : positive) (k : Z) :
  (0 <= k)%Z -> (2 ^ k <= Z.pos p)%Z -> (k < Z.pos (digits2_pos p))%Z.
Proof.
  intros Hk H. pose proof (digits2_pos_spec p) as D.
  assert (L : (2 ^ k < 2 ^ Z.pos (digits2_pos p))%Z) by lia.
  apply Z.pow_lt_mono_r_iff in L; lia.
Qed.

Lemma digits2_pos_unique (p : positive) (k : Z) :
  (2 ^ (k - 1) <= Z.pos p < 2 ^ k)%Z -> Z.pos (digits2_pos p) = k.
Proof.
  intros H. pose proof (digits2_pos_spec p) as D.
  assert (Hk : (0 < k)%Z).
  { destruct (Z.lt_ge_cases 0 k) as [L|L]; [exact L|].
    destruct k as [|k|k]; [cbn in H; lia|lia|].
    rewrite (Z.pow_neg_r 2 (Z.neg k)) in H by lia. lia. }
  assert (L1 : (2 ^ (Z.pos (digits2_pos p) - 1) < 2 ^ k)%Z) by lia.
  assert (L2 : (2 ^ (k - 1) < 2 ^ Z.pos (digits2_pos p))%Z) by lia.
  apply Z.pow_lt_mono_r_iff in L1; [|lia|lia].
  apply Z.pow_lt_mono_r_iff in L2; lia.
Qed.

(** *** Results that stay finite *)

(** A mantissa below [2^k] at an exponent of at most [E] rounds to zero or
    to a finite number, when the format has room for [k] digits at [E]. *)
Lemma binary_round_aux_room (sx : bool) (mx ex : Z) (lx : location) (k E : Z) :
  (0 <= mx < 2 ^ k)%Z -> (0 <= k)%Z -> (ex <= E)%Z ->
  (E + Z.max 0 (k - 53) + Z.max 0 (k - 52) <= 971)%Z ->
  (k <= 2000)%Z ->
  finite_or_zero (binary_round_aux prec emax sx mx ex lx).
Proof.
  intros Hm Hk He HB Hk2.
  destruct (binary_round_aux_cases sx mx ex lx ltac:(lia))
    as (m1 & e1 & m2 & m3 & e3 & S1 & R & S2 & ->).
  assert (H0 : (0 <= mx)%Z) by lia.
  pose proof (shifted_bounds _ _ _ _ H0 S1) as (B1 & B1' & B1'').
  assert (H2 : (0 <= m2)%Z) by lia.
  pose proof (shifted_bounds _ _ _ _ H2 S2) as (B2 & B2' & B2'').
  pose proof (Zdigits2_le mx k Hm Hk) as D1.
  assert (P : (2 ^ (k + 1) = 2 * 2 ^ k)%Z)
    by (rewrite Z.pow_add_r by lia; change (2 ^ 1)%Z with 2%Z; ring).
  pose proof (Zdigits2_le m2 (k + 1) ltac:(lia) ltac:(lia)) as D2.
  unfold fexp, SpecFloat.emin, prec, emax in B1'', B2''.
  unfold rounded. destruct m3 as [|p|p]; [left; exists sx; reflexivity| |lia].
  replace (e3 <=? emax - prec)%Z with true
    by (symmetry; apply Z.leb_le; unfold prec, emax; lia).
  right. exists sx, p, e3. reflexivity.
Qed.

Lemma bounded_digits (m : positive) (e : Z) :
  SpecFloat.bounded prec emax m e = true ->
  (Z.pos (digits2_pos m) <= 53 /\ -1074 <= e <= 971
   /\ fexp prec emax (Z.pos (digits2_pos m) + e) = e)%Z.
Proof.
  unfold SpecFloat.bounded, canonical_mantissa. intros H.
  apply andb_true_iff in H as [H1 H2].
  apply Z.eqb_eq in H1. apply Z.leb_le in H2.
  split; [|split; [|exact H1]];
    unfold fexp, SpecFloat.emin, prec, emax in *; lia.
Qed.

Lemma bounded_mantissa (m : positive) (e : Z) :
  SpecFloat.bounded prec emax m e = true -> (Z.pos m < 2 ^ 53)%Z.
Proof.
  intros H. destruct (bounded_digits m e H) as (D & _).
  pose proof (digits2_pos_spec m) as S.
  assert (L : (2 ^ Z.pos (digits2_pos m) <= 2 ^ 53)%Z)
    by (apply Z.pow_le_mono_r; lia).
  lia.
Qed.

(** The square root of a positive float is finite. *)
Lemma SFsqrt_finite (m : positive) (e : Z) :
  SpecFloat.bounded prec emax m e = true ->
  finite_or_zero (SFsqrt prec emax (S754_finite false m e)).
Proof.
  intros H. destruct (bounded_digits m e H) as (D & E & _).
  pose proof (digits2_pos_spec m) as S.
  cbn [SFsqrt]. unfold SFsqrt_core_binary. cbn [Zdigits2].
  set (d := Z.pos (digits2_pos m)) in *.
  set (e' := Z.min (fexp prec emax (Z.div2 (d + e + 1))) (Z.div2 e)).
  assert (He' : (e' = Z.min (Z.max ((d + e + 1) / 2 - 53) (-1074)) (e / 2))%Z)
    by (unfold e', fexp, SpecFloat.emin, prec, emax; rewrite !Z.div2_div;
        reflexivity).
  clearbody e'.
  assert (Hd : (1 <= d)%Z) by (unfold d; lia).
  assert (HX : (2 * ((d + e + 1) / 2) <= d + e + 1 <= 2 * ((d + e + 1) / 2) + 1)%Z)
    by (Z.div_mod_to_equations; lia).
  assert (HY : (2 * (e / 2) <= e <= 2 * (e / 2) + 1)%Z)
    by (Z.div_mod_to_equations; lia).
  set (X := ((d + e + 1) / 2)%Z) in *. set (Y := (e / 2)%Z) in *.
  clearbody X Y.
  set (s := (e - 2 * e')%Z).
  assert (Hs : (0 <= s)%Z) by (unfold s; lia).
  set (m' := match s with
             | Z.pos _ => Z.shiftl (Z.pos m) s
             | 0%Z => Z.pos m
             | Z.neg _ => 0%Z
             end).
  assert (Hm' : m' = (Z.pos m * 2 ^ s)%Z).
  { unfold m'. destruct s as [|p|p] eqn:Es.
    - cbn. lia.
    - apply Z.shiftl_mul_pow2. lia.
    - lia. }
  clearbody m'.
  assert (Pd : (2 ^ (d + s) = 2 ^ d * 2 ^ s)%Z) by (apply Z.pow_add_r; lia).
  assert (Ps : (0 < 2 ^ s)%Z) by (apply Z.pow_pos_nonneg; lia).
  assert (Bm : (0 <= m' < 2 ^ (d + s))%Z) by nia.
  pose proof (Z.sqrtrem_spec m' ltac:(lia)) as Q.
  destruct (Z.sqrtrem m') as [q r].
  assert (Bq : (0 <= q < 2 ^ (d + s))%Z) by nia.
  apply (binary_round_aux_room false q e' _ (d + s) e'); unfold s in *; lia.
Qed.

(** *** A lower bound that rounding keeps *)

Lemma pow2_add (a b : Z) :
  (0 <= a)%Z -> (0 <= b)%Z -> (2 ^ (a + b) = 2 ^ a * 2 ^ b)%Z.
Proof. intros. apply Z.pow_add_r; assumption. Qed.

Lemma pow2_pos (a : Z) : (0 <= a)%Z -> (0 < 2 ^ a)%Z.
Proof. intros. apply Z.pow_pos_nonneg; lia. Qed.

Lemma div_pow2_lower (m a b : Z) :
  (0 <= a)%Z -> (0 <= b)%Z -> (2 ^ (a + b) <= m)%Z -> (2 ^ b <= m / 2 ^ a)%Z.
Proof.
  intros Ha Hb H. apply Z.div_le_lower_bound; [apply pow2_pos; exact Ha|].
  rewrite <- pow2_add by assumption. exact H.
Qed.

Lemma pos_iter_xO (p d : positive) :
  Z.pos (Pos.iter xO p d) = (Z.pos p * 2 ^ Z.pos d)%Z.
Proof.
  induction d as [|d IH] using Pos.peano_ind.
  - cbn. lia.
  - rewrite Pos.iter_succ, Pos2Z.inj_xO, IH, Pos2Z.inj_succ, Z.pow_succ_r by lia.
    ring.
Qed.

Lemma shl_align_spec (mx : positive) (ex ex' : Z) :
  snd (shl_align mx ex ex') = Z.min ex ex'
  /\ Z.pos (fst (shl_align mx ex ex'))
     = (Z.pos mx * 2 ^ (ex - Z.min ex ex'))%Z.
Proof.
  unfold shl_align. destruct (ex' - ex)%Z as [|d|d] eqn:E; cbn [fst snd].
  - replace (Z.min ex ex') with ex by lia. rewrite Z.sub_diag. cbn. lia.
  - replace (Z.min ex ex') with ex by lia. rewrite Z.sub_diag. cbn. lia.
  - replace (Z.min ex ex') with ex' by lia.
    replace (ex - ex')%Z with (Z.pos d) by lia. split; [reflexivity|].
    apply pos_iter_xO.
Qed.

Lemma val_ge_digits (md : positive) (ed : Z) (m : positive) (e : Z) :
  val_ge md ed m e ->
  (Z.pos (digits2_pos md) + ed <= Z.pos (digits2_pos m) + e)%Z.
Proof.
  intros V. specialize (V (Z.min ed e) ltac:(lia) ltac:(lia)).
  pose proof (digits2_pos_spec md) as [Sd _].
  pose proof (digits2_pos_spec m) as [_ Sm].
  set (k := Z.min ed e) in *.
  set (dd := Z.pos (digits2_pos md)) in *. set (dm := Z.pos (digits2_pos m)) in *.
  assert (Hdd : (1 <= dd)%Z) by (unfold dd; lia).
  assert (Hdm : (1 <= dm)%Z) by (unfold dm; lia).
  assert (Hk1 : (0 <= ed - k)%Z) by (unfold k; lia).
  assert (Hk2 : (0 <= e - k)%Z) by (unfold k; lia).
  pose proof (pow2_pos (ed - k) Hk1) as P1.
  pose proof (pow2_pos (e - k) Hk2) as P2.
  assert (L : (2 ^ ((dd - 1) + (ed - k)) < 2 ^ (dm + (e - k)))%Z).
  { rewrite !pow2_add by lia. nia. }
  apply Z.pow_lt_mono_r_iff in L; lia.
Qed.

Lemma val_ge_same (md : positive) (ed : Z) (m : positive) :
  (md <= m)%positive -> val_ge md ed m ed.
Proof.
  intros H k Hk _. pose proof (pow2_pos (ed - k) ltac:(lia)). nia.
Qed.

Lemma val_ge_big (md : positive) (ed : Z) (m : positive) (e : Z) :
  (Z.pos md < 2 ^ 53)%Z -> (ed < e)%Z -> (2 ^ 52 <= Z.pos m)%Z ->
  val_ge md ed m e.
Proof.
  intros Hd He Hm k Hk _.
  pose proof (pow2_pos (ed - k) ltac:(lia)) as P1.
  replace (e - k)%Z with ((e - ed - 1) + 1 + (ed - k))%Z by lia.
  rewrite !pow2_add by lia.
  pose proof (pow2_pos (e - ed - 1) ltac:(lia)) as P2.
  change (2 ^ 1)%Z with 2%Z.
  change (2 ^ 53)%Z with (2 * 2 ^ 52)%Z in Hd.
  assert (A : (Z.pos md < 2 * Z.pos m)%Z) by lia.
  assert (B : (2 * Z.pos m <= Z.pos m * (2 ^ (e - ed - 1) * 2))%Z) by nia.
  nia.
Qed.

(** Rounding to nearest keeps a value above a float it was above. *)
Lemma binary_round_ge (md : positive) (ed : Z) (mx : positive) (ex : Z) :
  SpecFloat.bounded prec emax md ed = true -> val_ge md ed mx ex ->
  ge_float md ed (binary_round prec emax false mx ex).
Proof.
  intros B V.
  destruct (bounded_digits md ed B) as (Dd & Ed & Cd).
  pose proof (bounded_mantissa md ed B) as Md.
  pose proof (val_ge_digits _ _ _ _ V) as DD.
  pose proof (digits2_pos_spec mx) as Sx.
  unfold binary_round.
  set (D := (Z.pos (digits2_pos mx) + ex)%Z) in *.
  set (e1 := fexp prec emax D).
  assert (He1 : e1 = Z.max (D - 53) (-1074)) by reflexivity.
  assert (Hed : ed = Z.max (Z.pos (digits2_pos md) + ed - 53) (-1074))
    by (rewrite <- Cd at 1; reflexivity).
  clearbody e1.
  destruct (shl_align_spec mx ex e1) as [Ez Mz].
  destruct (shl_align mx ex e1) as [mz ez]. cbn [fst snd] in Ez, Mz.
  assert (Hz : (0 <= ex - ez)%Z) by lia.
  pose proof (pow2_pos (ex - ez) Hz) as Pz.
  assert (Dz : (Z.pos (digits2_pos mz) + ez = D)%Z).
  { assert (U : Z.pos (digits2_pos mz) = (D - ez)%Z).
    { apply digits2_pos_unique. rewrite Mz, <- Ez.
      replace (D - ez - 1)%Z with ((Z.pos (digits2_pos mx) - 1) + (ex - ez))%Z
        by (unfold D; lia).
      replace (D - ez)%Z with (Z.pos (digits2_pos mx) + (ex - ez))%Z
        by (unfold D; lia).
      rewrite !pow2_add by lia. nia. }
    lia. }
  destruct (binary_round_aux_cases false (Z.pos mz) ez loc_Exact ltac:(lia))
    as (m1 & e1' & m2 & m3 & e3 & S1 & R & S2 & ->).
  unfold shifted in S1. cbn [Zdigits2] in S1. rewrite Dz in S1.
  change (fexp prec emax D) with (Z.max (D - 53) (-1074)) in S1.
  rewrite <- He1 in S1.
  assert (M1 : m1 = (Z.pos mz / 2 ^ (e1 - ez))%Z /\ e1' = e1).
  { destruct S1 as [(A1 & A2 & A3)|(A1 & A2 & A3)]; [|split; assumption].
    replace (e1 - ez)%Z with 0%Z by lia. rewrite Z.div_1_r. lia. }
  destruct M1 as [M1 ->]. clear S1.
  pose proof (digits2_pos_spec mz) as [Sz _].
  assert (L1 : (2 ^ (D - e1 - 1) <= m1)%Z).
  { rewrite M1. apply div_pow2_lower; try lia.
    replace (e1 - ez + (D - e1 - 1))%Z with (Z.pos (digits2_pos mz) - 1)%Z by lia.
    exact Sz. }
  assert (P1 : (1 <= m1)%Z).
  { pose proof (pow2_pos (D - e1 - 1) ltac:(lia)). lia. }
  assert (Big1 : (ed < e1 -> 2 ^ 52 <= m1)%Z).
  { intros H. replace (D - e1 - 1)%Z with 52%Z in L1 by lia. exact L1. }
  assert (Same1 : (ed = e1 -> Z.pos md <= m1)%Z).
  { intros H. rewrite M1. specialize (V ez ltac:(lia) ltac:(lia)).
    apply Z.div_le_lower_bound; [apply pow2_pos; lia|].
    rewrite <- H, Mz, <- Ez. lia. }
  unfold shifted in S2.
  destruct m2 as [|p2|p2]; try lia. cbn [Zdigits2] in S2.
  change (fexp prec emax (Z.pos (digits2_pos p2) + e1))
    with (Z.max (Z.pos (digits2_pos p2) + e1 - 53) (-1074)) in S2.
  pose proof (digits2_pos_spec p2) as [S2p _].
  assert (Q : (e3 = e1 /\ m3 = Z.pos p2) \/ (e1 < e3 /\ 2 ^ 52 <= m3)%Z).
  { destruct S2 as [(A1 & A2 & A3)|(A1 & A2 & A3)]; [left; split; assumption|].
    right. split; [lia|]. rewrite A2. apply div_pow2_lower; try lia.
    replace (Z.max (Z.pos (digits2_pos p2) + e1 - 53) (-1074) - e1 + 52)%Z
      with (Z.pos (digits2_pos p2) - 1)%Z by lia.
    exact S2p. }
  clear S2.
  assert (P3 : (1 <= m3)%Z).
  { destruct Q as [[_ ->]|[_ Q]]; [lia|].
    pose proof (pow2_pos 52 ltac:(lia)). lia. }
  unfold rounded. destruct m3 as [|p3|p3]; try lia.
  destruct (e3 <=? emax - prec)%Z; [|left; reflexivity].
  right. exists p3, e3. split; [reflexivity|].
  destruct Q as [[-> Q]|[Q1 Q2]].
  - destruct (Z.eq_dec ed e1) as [E|E].
    + assert (Hm : (md <= p3)%positive) by (specialize (Same1 E); lia).
      split; [rewrite <- E; apply val_ge_same; exact Hm|].
      right. split; [exact E|exact Hm].
    + assert (Hlt : (ed < e1)%Z) by lia.
      split; [apply val_ge_big; [exact Md|exact Hlt|specialize (Big1 Hlt); lia]|].
      left. exact Hlt.
  - assert (Hlt : (ed < e3)%Z) by lia.
    split; [apply val_ge_big; assumption|]. left. exact Hlt.
Qed.

(** *** Comparisons and special values *)


Lemma SFmul_room (sx sy : bool) (mx my : positive) (ex ey : Z) :
  (Z.pos mx < 2 ^ 53)%Z -> (Z.pos my < 2 ^ 53)%Z -> (ex + ey <= 864)%Z ->
  finite_or_zero (SFmul prec emax (S754_finite sx mx ex) (S754_finite sy my ey)).
Proof.
  intros Hx Hy He. cbn [SFmul].
  apply (binary_round_aux_room _ _ _ _ 106 (ex + ey)); try lia.
  rewrite Pos2Z.inj_mul.
  change (2 ^ 106)%Z with (2 ^ 53 * 2 ^ 53)%Z. nia.
Qed.

Lemma valid_mantissa (x : float) (s : bool) (m : positive) (e : Z) :
  Prim2SF x = S754_finite s m e ->
  SpecFloat.bounded prec emax m e = true.
Proof.
  intros H. pose proof (Prim2SF_valid x) as V. rewrite H in V. exact V.
Qed.

Lemma leb_zero_nonneg (x : float) :
  PrimFloat.leb (of_Z 0) x = true -> nonneg (Prim2SF x).
Proof.
  rewrite leb_spec. change (Prim2SF (of_Z 0)) with (S754_zero false).
  destruct (Prim2SF x) as [s|[|]| |[|] m e]; cbn [SFleb SFcompare];
    try discriminate; intros _.
  - left. exists s. reflexivity.
  - right; right. reflexivity.
  - right; left. exists m, e. reflexivity.
Qed.

Lemma ltb_zero_positive (x : float) :
  PrimFloat.ltb (of_Z 0) x = true ->
  (exists m e, Prim2SF x = S754_finite false m e)
  \/ Prim2SF x = S754_infinity false.
Proof.
  rewrite ltb_spec. change (Prim2SF (of_Z 0)) with (S754_zero false).
  destruct (Prim2SF x) as [s|[|]| |[|] m e]; cbn [SFltb SFcompare];
    try discriminate; intros _.
  - right. reflexivity.
  - left. exists m, e. reflexivity.
Qed.

Lemma abs_ltb_infinity_finite (x : float) :
  PrimFloat.ltb (PrimFloat.abs x) infinity = true -> finite_or_zero (Prim2SF x).
Proof.
  rewrite ltb_spec, abs_spec.
  change (Prim2SF infinity) with (S754_infinity false).
  destruct (Prim2SF x) as [s|[|]| |s m e]; cbn [SFabs SFltb SFcompare];
    try discriminate; intros _.
  - left. exists s. reflexivity.
  - right. exists s, m, e. reflexivity.
Qed.

Lemma mul_not_nan (x y : float) :
  Prim2SF x <> S754_nan ->
  (exists m e, Prim2SF y = S754_finite false m e) ->
  Prim2SF (PrimFloat.mul x y) <> S754_nan.
Proof.
  intros Hx (m & e & Ey). rewrite mul_spec, Ey.
  destruct (Prim2SF x) as [s|s| |s mx ex]; cbn [SFmul]; try discriminate.
  - contradiction.
  - apply (signed_not_nan (xorb s false)). apply binary_round_aux_signed. lia.
Qed.

Lemma add_zero_not_nan (x : float) :
  Prim2SF x <> S754_nan ->
  Prim2SF (PrimFloat.add x (of_Z 0)) <> S754_nan.
Proof.
  intros Hx. rewrite add_spec. change (Prim2SF (of_Z 0)) with (S754_zero false).
  destruct (Prim2SF x) as [[|]|[|]| |s mx ex]; cbn [SFadd]; try discriminate.
  contradiction.
Qed.

Lemma not_nan_is_nan (x : float) :
  Prim2SF x <> S754_nan -> PrimFloat.is_nan x = false.
Proof.
  intros H. unfold PrimFloat.is_nan. rewrite eqb_spec.
  destruct (Prim2SF x) as [s|[|]| |[|] m e]; cbn [SFeqb SFcompare negb];
    try reflexivity.
  - contradiction.
  - rewrite Z.compare_refl, Pos.compare_cont_refl. reflexivity.
  - rewrite Z.compare_refl, Pos.compare_cont_refl. reflexivity.
Qed.

Lemma infinity_mul_positive (c : float) :
  PrimFloat.ltb (of_Z 0) c = true -> PrimFloat.mul infinity c = infinity.
Proof.
  intros H. apply Prim2SF_inj. rewrite mul_spec.
  change (Prim2SF infinity) with (S754_infinity false).
  destruct (ltb_zero_positive c H) as [(m & e & ->)| ->]; reflexivity.
Qed.

(** ** hashString and seededRandom *)

Lemma wrap32_range (z : Z) : (- 2 ^ 31 <= wrap32 z < 2 ^ 31)%Z.
Proof.
  unfold wrap32.
  pose proof (Z.mod_pos_bound (z + 2 ^ 31) (2 ^ 32) ltac:(lia)). lia.
Qed.

Lemma wrap32_congr (a b k : Z) :
  (a = b + k * 2 ^ 32)%Z -> wrap32 a = wrap32 b.
Proof.
  intros ->. unfold wrap32.
  replace (b + k * 2 ^ 32 + 2 ^ 31)%Z with (b + 2 ^ 31 + k * 2 ^ 32)%Z by ring.
  rewrite Z_mod_plus_full. reflexivity.
Qed.

(** The shift-and-subtract step is [hash * 31 + code], wrapped. *)
Lemma hash_step_31 (hash c : Z) : hash_step hash c = wrap32 (hash * 31 + c).
Proof.
  unfold hash_step, shl32.
  rewrite Z.shiftl_mul_pow2 by lia.
  apply (wrap32_congr _ _ (- ((hash * 2 ^ 5 + 2 ^ 31) / 2 ^ 32))).
  unfold wrap32.
  rewrite (Z.mod_eq (hash * 2 ^ 5 + 2 ^ 31) (2 ^ 32)) by lia.
  ring.
Qed.

Lemma fold_hash_range (str : js_string) :
  forall h, (- 2 ^ 31 <= h < 2 ^ 31)%Z ->
  (- 2 ^ 31 <= fold_left hash_step str h < 2 ^ 31)%Z.
Proof.
  induction str as [|c str IH]; intros h Hh; simpl; [exact Hh|].
  apply IH. apply wrap32_range.
Qed.

Lemma hashString_range (str : js_string) : (0 <= hashString str <= 2 ^ 31)%Z.
Proof.
  unfold hashString.
  pose proof (fold_hash_range str 0%Z ltac:(lia)). lia.
Qed.

Lemma lcg_mod (seed : Z) :
  (0 <= seed)%Z -> lcg seed = ((seed * 9301 + 49297) mod 233280)%Z.
Proof. intros H. unfold lcg. apply Z.rem_mod_nonneg; lia. Qed.

Lemma lcg_range (seed : Z) : (0 <= seed)%Z -> (0 <= lcg seed < 233280)%Z.
Proof.
  intros H. rewrite lcg_mod by exact H. apply Z.mod_pos_bound. lia.
Qed.

Lemma unit_interval_all : all_from 233280 0 unit_interval = true.
Proof. vm_compute. reflexivity. Qed.

Lemma rand_float_range (s : Z) :
  (0 <= s < 233280)%Z ->
  let u := ndiv (of_Z s) (of_Z 233280) : float in
  nle (of_Z 0) u = true /\ nlt u (of_Z 1) = true
  /\ (s <> 0%Z -> nlt (of_Z 0) u = true).
Proof.
  intros Hs u.
  assert (Hn : Z.of_nat 233280 = 233280%Z) by (vm_compute; reflexivity).
  pose proof (all_from_spec _ _ _ unit_interval_all s) as H.
  rewrite Hn in H. specialize (H ltac:(lia)).
  unfold unit_interval in H. fold u in H.
  apply andb_prop in H. destruct H as [H H3].
  apply andb_prop in H. destruct H as [H1 H2].
  repeat split; try assumption.
  intros Hne. apply orb_prop in H3. destruct H3 as [H3|H3]; [|exact H3].
  apply Z.eqb_eq in H3. contradiction.
Qed.

Lemma rand_real_range (s : Z) :
  (0 <= s < 233280)%Z -> (0 <= IZR s / 233280 < 1)%R.
Proof.
  intros [H1 H2]. apply IZR_le in H1. apply IZR_lt in H2.
  split.
  - apply Rmult_le_pos; lra.
  - apply Rmult_lt_reg_r with 233280%R; [lra|].
    unfold Rdiv. rewrite Rmult_assoc, Rinv_l by lra. lra.
Qed.

(** C9: the seed is the absolute value of the wrapped accumulation
    [hash * 31 + code] over the code units in order, a non-negative integer of
    at most 2^31 (the order of the units matters: "ab" and "ba" differ); and
    from every state [seed >= 0] one call leaves the state
    [(seed * 9301 + 49297) mod 233280] and returns that state divided by
    233280, a number in [0, 1) on binary64 and over the reals. *)
Theorem seed_and_next :
  (forall str : js_string,
      hashString str
      = Z.abs (fold_left (fun hash c => wrap32 (hash * 31 + c)) str 0)%Z
      /\ (0 <= hashString str <= 2 ^ 31)%Z)
  /\ hashString (js "ab") <> hashString (js "ba")
  /\ (forall seed : Z, (0 <= seed)%Z ->
      let seed' := ((seed * 9301 + 49297) mod 233280)%Z in
      (@rand float _ seed = (of_Z seed' / of_Z 233280, seed')%js
       /\ (of_Z 0 <=? fst (@rand float _ seed))%js = true
       /\ (fst (@rand float _ seed) <? of_Z 1)%js = true)
      /\ (@rand R _ seed = (IZR seed' / 233280, seed')%R
          /\ (0 <= fst (@rand R _ seed) < 1)%R)).
Proof.
  split; [|split].
  - intros str. split; [|apply hashString_range].
    unfold hashString. f_equal.
    generalize 0%Z. induction str as [|c str IH]; intros h; simpl; [reflexivity|].
    rewrite hash_step_31. apply IH.
  - vm_compute. discriminate.
  - intros seed Hseed seed'.
    assert (Hl : lcg seed = seed') by (apply lcg_mod; exact Hseed).
    assert (Hr : (0 <= seed' < 233280)%Z) by (apply Z.mod_pos_bound; lia).
    unfold rand. rewrite Hl. cbn [fst].
    destruct (rand_float_range seed' Hr) as (H1 & H2 & _).
    repeat split; try assumption; apply (rand_real_range seed' Hr).
Qed.

(** ** The grids *)

Lemma length_wavelengths {num} {N : JSNumber num} :
  length (@wavelengths num N) = 200%nat.
Proof. unfold wavelengths. rewrite length_map, length_seq. reflexivity. Qed.

Lemma length_phase {num} {N : JSNumber num} : length (@phase num N) = 100%nat.
Proof. unfold phase. rewrite length_map, length_seq. reflexivity. Qed.

Lemma dec_real (m : Z) (e : nat) :
  @dec R _ m e = (IZR m / IZR (10 ^ Z.of_nat e))%R.
Proof. reflexivity. Qed.

Lemma wavelengths_real (i : nat) :
  (i < 200)%nat ->
  nth i (@wavelengths R _) NaN = (6 / 10 + INR i * (47 / 10) / 199)%R.
Proof.
  intros Hi. unfold wavelengths. rewrite nth_map_seq by exact Hi.
  rewrite !dec_real. cbn [of_Z nadd nsub nmul ndiv Ideal].
  rewrite <- INR_IZR_INZ.
  change (Z.of_nat nWavelengths - 1)%Z with 199%Z.
  change (10 ^ Z.of_nat 1)%Z with 10%Z.
  lra.
Qed.

Lemma phase_real (i : nat) :
  (i < 100)%nat ->
  nth i (@phase R _) NaN = (- (5 / 100) + INR i * (1 / 10) / 99)%R.
Proof.
  intros Hi. unfold phase. rewrite nth_map_seq by exact Hi.
  rewrite !dec_real. cbn [of_Z nadd nsub nmul ndiv nneg Ideal].
  rewrite <- INR_IZR_INZ.
  change (Z.of_nat nTimes - 1)%Z with 99%Z.
  change (10 ^ Z.of_nat 1)%Z with 10%Z.
  change (10 ^ Z.of_nat 2)%Z with 100%Z.
  lra.
Qed.

Lemma ascending_spec (l : list float) :
  ascending l = true ->
  forall i j, (i < j < length l)%nat -> nlt (nth i l NaN) (nth j l NaN) = true.
Proof.
  unfold ascending. intros H i j Hij.
  rewrite forallb_forall in H. specialize (H i).
  rewrite forallb_forall in H. apply H; apply in_seq; lia.
Qed.

Lemma GET_grids {num} {N : JSNumber num} {M : MathLib num}
    (tgt : js_string) (bin_size : option js_string) :
  phase_out (GET tgt bin_size) = phase
  /\ lightcurve_phase (GET tgt bin_size) = phase
  /\ wavelength_range (GET tgt bin_size)
     = (nth 0 wavelengths NaN, nth 199 wavelengths NaN)
  /\ n_integrations (GET tgt bin_size) = 100%nat.
Proof.
  unfold GET. destruct (fst (synthesize (hashString tgt))) as [flux raw].
  cbn [phase_out lightcurve_phase wavelength_range n_integrations].
  rewrite length_wavelengths. repeat split.
Qed.

(** C8: the wavelength grid has 200 points from 0.6 to 5.3 and the phase grid
    100 points from -0.05 to 0.05, each strictly ascending and evenly spaced:
    on binary64 the end points are the doubles of the literals, every earlier
    point is below every later one and consecutive differences equal the step
    up to rounding (1e-15, 1e-16); over the reals the differences are exactly
    4.7/199 and 0.1/99. The handler returns these grids for every target and
    every bin_size parameter. *)
Theorem grid_invariants :
  (length (@wavelengths float _) = 200%nat
   /\ nth 0 (@wavelengths float _) NaN = dec 6 1
   /\ nth 199 (@wavelengths float _) NaN = dec 53 1
   /\ (forall i j, (i < j < 200)%nat ->
         (nth i (@wavelengths float _) NaN <? nth j wavelengths NaN)%js = true)
   /\ even_steps wavelengths (dec 47 1 / of_Z 199)%js (dec 1 15) = true)
  /\ (length (@phase float _) = 100%nat
      /\ nth 0 (@phase float _) NaN = (- dec 5 2)%js
      /\ nth 99 (@phase float _) NaN = dec 5 2
      /\ (forall i j, (i < j < 100)%nat ->
            (nth i (@phase float _) NaN <? nth j phase NaN)%js = true)
      /\ even_steps phase (dec 1 1 / of_Z 99)%js (dec 1 16) = true)
  /\ (nth 0 (@wavelengths R _) NaN = (6 / 10)%R
      /\ nth 199 (@wavelengths R _) NaN = (53 / 10)%R
      /\ (forall i, (S i < 200)%nat ->
            (nth (S i) (@wavelengths R _) NaN - nth i wavelengths NaN
             = 47 / 10 / 199)%R)
      /\ (forall i j, (i < j < 200)%nat ->
            (nth i (@wavelengths R _) NaN < nth j wavelengths NaN)%R))
  /\ (nth 0 (@phase R _) NaN = (- (5 / 100))%R
      /\ nth 99 (@phase R _) NaN = (5 / 100)%R
      /\ (forall i, (S i < 100)%nat ->
            (nth (S i) (@phase R _) NaN - nth i phase NaN = 1 / 10 / 99)%R)
      /\ (forall i j, (i < j < 100)%nat ->
            (nth i (@phase R _) NaN < nth j phase NaN)%R))
  /\ (forall (M : MathLib float) (tgt : js_string) (bin_size : option js_string),
        phase_out (GET (num := float) tgt bin_size) = phase
        /\ lightcurve_phase (GET (num := float) tgt bin_size) = phase
        /\ wavelength_range (GET (num := float) tgt bin_size)
           = (dec 6 1, dec 53 1)).
Proof.
  split; [|split; [|split; [|split]]].
  - split; [apply length_wavelengths|].
    split; [vm_compute; reflexivity|]. split; [vm_compute; reflexivity|].
    split; [|vm_compute; reflexivity].
    intros i j Hij. apply ascending_spec.
    + vm_compute. reflexivity.
    + rewrite length_wavelengths. exact Hij.
  - split; [apply length_phase|].
    split; [vm_compute; reflexivity|]. split; [vm_compute; reflexivity|].
    split; [|vm_compute; reflexivity].
    intros i j Hij. apply ascending_spec.
    + vm_compute. reflexivity.
    + rewrite length_phase. exact Hij.
  - split; [|split; [|split]].
    + rewrite wavelengths_real by lia. simpl. lra.
    + rewrite wavelengths_real by lia.
      replace (INR 199) with 199%R by (rewrite INR_IZR_INZ; reflexivity). lra.
    + intros i Hi. rewrite !wavelengths_real by lia. rewrite S_INR. lra.
    + intros i j Hij. rewrite !wavelengths_real by lia.
      assert (H : (INR i < INR j)%R) by (apply lt_INR; lia). lra.
  - split; [|split; [|split]].
    + rewrite phase_real by lia. simpl. lra.
    + rewrite phase_real by lia.
      replace (INR 99) with 99%R by (rewrite INR_IZR_INZ; reflexivity). lra.
    + intros i Hi. rewrite !phase_real by lia. rewrite S_INR. lra.
    + intros i j Hij. rewrite !phase_real by lia.
      assert (H : (INR i < INR j)%R) by (apply lt_INR; lia). lra.
  - intros M tgt bin_size.
    destruct (GET_grids (num := float) tgt bin_size) as (H1 & H2 & H3 & _).
    split; [exact H1|]. split; [exact H2|].
    rewrite H3. vm_compute. reflexivity.
Qed.

(** ** The transit model *)

(** The model over the reals, with the constants evaluated. *)
Lemma transitModel_real (t depth : R) :
  @transitModel R _ t depth
  = (if Rle_dec (15 / 1000) (Rabs t) then 1
     else if Rlt_dec (10 / 1000) (Rabs t)
          then 1 - depth * (1 - (Rabs t - 10 / 1000) / (5 / 1000))
          else 1 - depth)%R.
Proof.
  unfold transitModel, transitDuration, ingress. rewrite !dec_real.
  cbn [of_Z nadd nsub nmul ndiv nlt nle Math_abs Ideal].
  change (10 ^ Z.of_nat 2)%Z with 100%Z.
  change (10 ^ Z.of_nat 3)%Z with 1000%Z.
  unfold Rleb, Rltb.
  destruct (Rle_dec (3 / 100 / 2) (Rabs t)) as [H1|H1];
    destruct (Rle_dec (15 / 1000) (Rabs t)) as [H2|H2]; try lra.
  destruct (Rlt_dec (3 / 100 / 2 - 5 / 1000) (Rabs t)) as [H3|H3];
    destruct (Rlt_dec (10 / 1000) (Rabs t)) as [H4|H4]; try lra.
  all: try reflexivity.
Qed.

(** C6: at phase 0 the flux is exactly [1 - depth]; at or beyond half the
    transit duration it is 1; strictly between [halfDuration - ingress] and
    [halfDuration] it is the linear ramp
    [1 - depth * (1 - (|t| - halfDuration + ingress) / ingress)]; and the
    model is symmetric about phase 0. This holds on binary64 for every phase
    and depth. Over the reals the ramp runs from [1 - depth] at
    [|t| = 0.010] to 1 at [|t| = 0.015] and stays between the two for a
    non-negative depth. *)
Theorem transitModel_shape :
  ((forall depth : float, transitModel (of_Z 0) depth = (of_Z 1 - depth)%js)
   /\ (forall t depth : float,
         (Math_abs t >=? transitDuration / of_Z 2)%js = true ->
         transitModel t depth = of_Z 1)
   /\ (forall t depth : float,
         (Math_abs t <? transitDuration / of_Z 2)%js = true ->
         (Math_abs t >? transitDuration / of_Z 2 - ingress)%js = true ->
         transitModel t depth
         = (of_Z 1 - depth * (of_Z 1 - (Math_abs t - transitDuration / of_Z 2
                                        + ingress) / ingress))%js)
   /\ (forall t depth : float,
         transitModel (- t)%js depth = transitModel t depth))
  /\ ((forall depth : R, transitModel 0%R depth = (1 - depth)%R)
      /\ (forall t depth : R,
            (15 / 1000 <= Rabs t)%R -> transitModel t depth = 1%R)
      /\ (forall t depth : R,
            (10 / 1000 < Rabs t < 15 / 1000)%R ->
            transitModel t depth
            = (1 - depth + depth * ((Rabs t - 10 / 1000) / (5 / 1000)))%R
            /\ ((0 <= depth)%R ->
                (1 - depth <= transitModel t depth <= 1)%R))
      /\ (forall t depth : R,
            transitModel (- t)%R depth = transitModel t depth)).
Proof.
  split.
  - split; [|split; [|split]].
    + intros depth. reflexivity.
    + intros t depth H. unfold transitModel. rewrite H. reflexivity.
    + intros t depth H1 H2. unfold transitModel.
      cbn [nlt nle Float64] in *.
      rewrite (ltb_not_leb _ _ H1), H2. reflexivity.
    + intros t depth. unfold transitModel.
      cbn [nneg Math_abs Float64]. rewrite abs_opp. reflexivity.
  - split; [|split; [|split]].
    + intros depth. rewrite transitModel_real, Rabs_R0.
      destruct (Rle_dec (15 / 1000) 0); [lra|].
      destruct (Rlt_dec (10 / 1000) 0); [lra|]. reflexivity.
    + intros t depth H. rewrite transitModel_real.
      destruct (Rle_dec (15 / 1000) (Rabs t)); [reflexivity|lra].
    + intros t depth [H1 H2]. rewrite transitModel_real.
      destruct (Rle_dec (15 / 1000) (Rabs t)); [lra|].
      destruct (Rlt_dec (10 / 1000) (Rabs t)); [|lra].
      split; [field|]. intros Hd.
      set (p := ((Rabs t - 10 / 1000) / (5 / 1000))%R).
      assert (Hp : (0 < p < 1)%R).
      { unfold p. split.
        - apply Rmult_lt_0_compat; lra.
        - apply Rmult_lt_reg_r with (5 / 1000)%R; [lra|].
          unfold Rdiv at 1. rewrite Rmult_assoc, Rinv_l by lra. lra. }
      split; nra.
    + intros t depth. rewrite !transitModel_real, Rabs_Ropp. reflexivity.
Qed.

(** The ramp is met on the grid: the sample of index 37 (phase about
    -0.0126) lies strictly between the two thresholds. *)
Example ramp_on_grid :
  let t := nth 37 (@phase float _) NaN in
  (Math_abs t <? transitDuration / of_Z 2)%js = true
  /\ (Math_abs t >? transitDuration / of_Z 2 - ingress)%js = true.
Proof. vm_compute. split; reflexivity. Qed.

(** ** The molecular features *)

Section Features.
Context {num : Type} {N : JSNumber num} {M : MathLib num}.
Local Open Scope js_scope.

Lemma add_feature_bump (wl depth : num) (f : num * num * num) :
  add_feature wl depth f = if contains wl f then depth + bump wl f else depth.
Proof. destruct f as [[wlMin wlMax] extraDepth]. reflexivity. Qed.

Lemma fold_left_guarded {A B} (p : B -> bool) (g : A -> B -> A) (l : list B) :
  forall a, fold_left (fun a b => if p b then g a b else a) l a
            = fold_left g (filter p l) a.
Proof.
  induction l as [|b l IH]; intros a; simpl; [reflexivity|].
  rewrite IH. destruct (p b); reflexivity.
Qed.

Lemma fold_left_pointwise {A B} (g h : A -> B -> A) (l : list B) :
  (forall a b, g a b = h a b) -> forall a, fold_left g l a = fold_left h l a.
Proof.
  intros E. induction l as [|b l IH]; intros a; simpl; [reflexivity|].
  rewrite E. apply IH.
Qed.

Lemma fold_left_nested {A B C} (h : A -> B -> A) (l : list (C * list B)) :
  forall a, fold_left (fun a e => fold_left h (snd e) a) l a
            = fold_left h (concat (map snd l)) a.
Proof.
  induction l as [|e l IH]; intros a; simpl; [reflexivity|].
  rewrite fold_left_app. apply IH.
Qed.

(** The depth of a channel is the baseline plus, in order, the bump of every
    range that contains the wavelength. *)
Lemma channel_depth_sum (wl : num) :
  channel_depth wl
  = fold_left (fun depth f => depth + bump wl f)
              (filter (contains wl) ranges) baseDepth.
Proof.
  unfold channel_depth, ranges.
  rewrite (fold_left_nested (add_feature wl)).
  rewrite <- fold_left_guarded.
  apply fold_left_pointwise. intros depth f. apply add_feature_bump.
Qed.

End Features.

Lemma bump_real_nonneg (wl : R) :
  Forall (fun f => (0 <= bump wl f)%R) (@ranges R _).
Proof.
  unfold ranges, molecularEffects. cbn [map snd concat app].
  repeat (apply Forall_cons;
          [ unfold bump;
            cbn [of_Z nadd nsub nmul ndiv nneg Ideal Math_exp IdealMath];
            (apply Rmult_le_pos; [|left; apply exp_pos]);
            rewrite dec_real; change (10 ^ Z.of_nat 3)%Z with 1000%Z; lra
          | ]).
  apply Forall_nil.
Qed.

Lemma fold_add_nonneg (g : (R * R * R) -> R) (l : list (R * R * R)) :
  Forall (fun f => (0 <= g f)%R) l ->
  forall a, (a <= fold_left (fun depth f => depth + g f) l a)%R.
Proof.
  induction 1 as [|f l Hf _ IH]; intros a; simpl; [lra|].
  specialize (IH (a + g f)%R). lra.
Qed.

(** ** The molecular features on binary64 *)

Lemma SFadd_ge (md : positive) (ed : Z) (a x : spec_float) :
  SpecFloat.bounded prec emax md ed = true ->
  ge_float md ed a -> nonneg x -> ge_float md ed (SFadd prec emax a x).
Proof.
  intros B [->|(m & e & -> & V & L)] [(s & ->)|[(mx & ex & ->)| ->]];
    cbn [SFadd]; try (left; reflexivity).
  - right. exists m, e. split; [reflexivity|]. split; assumption.
  - destruct (shl_align_spec m e (Z.min e ex)) as [_ M1].
    set (p1 := fst (shl_align m e (Z.min e ex))) in *.
    set (p2 := fst (shl_align mx ex (Z.min e ex))).
    cbn [cond_Zopp].
    change (Z.pos p1 + Z.pos p2)%Z with (Z.pos (p1 + p2)).
    cbn [binary_normalize].
    apply binary_round_ge; [exact B|].
    intros k Hk Hk'. specialize (V k Hk ltac:(lia)).
    rewrite Pos2Z.inj_add, M1.
    replace (Z.min e (Z.min e ex)) with (Z.min e ex) by lia.
    set (ez := Z.min e ex) in *.
    replace (e - k)%Z with ((e - ez) + (ez - k))%Z in V by lia.
    rewrite pow2_add in V by lia.
    pose proof (pow2_pos (ez - k) ltac:(lia)) as P. nia.
Qed.

Lemma ge_float_leb (md : positive) (ed : Z) (x : spec_float) :
  ge_float md ed x -> SFleb (S754_finite false md ed) x = true.
Proof.
  intros [->|(m & e & -> & _ & L)]; [reflexivity|].
  unfold SFleb. cbn [SFcompare].
  destruct L as [L|[<- L]].
  - apply Z.compare_lt_iff in L. rewrite L. reflexivity.
  - rewrite Z.compare_refl. change (Pos.compare_cont Eq md m) with (md ?= m)%positive.
    unfold Pos.le in L. destruct (md ?= m)%positive; [reflexivity|reflexivity|].
    contradiction L. reflexivity.
Qed.

Lemma ge_float_refl (md : positive) (ed : Z) :
  ge_float md ed (S754_finite false md ed).
Proof.
  right. exists md, ed. split; [reflexivity|].
  split; [apply val_ge_same; lia|]. right. split; [reflexivity|lia].
Qed.

(** A positive finite factor times a factor [>= 0] is zero or positive. *)
Lemma mul_nonneg (c x : float) :
  (exists m e, Prim2SF c = S754_finite false m e) ->
  PrimFloat.leb (of_Z 0) x = true ->
  nonneg (Prim2SF (PrimFloat.mul c x)).
Proof.
  intros (m & e & Ec) H. rewrite mul_spec, Ec.
  destruct (leb_zero_nonneg x H) as [(s & ->)|[(mx & ex & ->)| ->]]; cbn [SFmul].
  - left. exists (xorb false s). reflexivity.
  - apply signed_nonneg. apply binary_round_aux_signed. lia.
  - right; right. reflexivity.
Qed.

Lemma fold_add_ge {A} (md : positive) (ed : Z) (g : A -> float) (l : list A) :
  SpecFloat.bounded prec emax md ed = true ->
  Forall (fun f => nonneg (Prim2SF (g f))) l ->
  forall a : float, ge_float md ed (Prim2SF a) ->
    ge_float md ed (Prim2SF (fold_left (fun d f => PrimFloat.add d (g f)) l a)).
Proof.
  intros B. induction 1 as [|f l Hf _ IH]; intros a Ha; [exact Ha|].
  cbn [fold_left]. apply IH. rewrite add_spec. apply SFadd_ge; assumption.
Qed.

(** Every extra depth of the table is a positive finite double. *)
Lemma extraDepth_positive :
  Forall (fun f : float * float * float =>
            exists m e, Prim2SF (snd f) = S754_finite false m e)
         ranges.
Proof.
  unfold ranges, molecularEffects. cbn [map snd concat app].
  repeat (apply Forall_cons; [vm_compute; eexists; eexists; reflexivity|]).
  apply Forall_nil.
Qed.

Section FeaturesBinary64.
Context {M : MathLib float}.
Local Open Scope js_scope.

Lemma bump_factor (wl : float) (f : float * float * float) :
  bump wl f = snd f * Math_exp (bump_exponent wl f).
Proof. destruct f as [[wlMin wlMax] extraDepth]. reflexivity. Qed.

(** On binary64, with an exponential that is not negative where the
    handler takes it, the depth of a channel is at least the baseline. *)
Lemma channel_depth_ge_baseline (wl : float) :
  (forall f, In f ranges -> contains wl f = true ->
             (of_Z 0 <=? Math_exp (bump_exponent wl f)) = true) ->
  (baseDepth <=? channel_depth wl) = true.
Proof.
  intros H. rewrite channel_depth_sum.
  cbn [nle nadd Float64]. rewrite leb_spec.
  remember (Prim2SF (@baseDepth float _)) as b eqn:Hb.
  vm_compute in Hb.
  match type of Hb with
  | _ = S754_finite false ?m ?e =>
      assert (B : SpecFloat.bounded prec emax m e = true)
        by (vm_compute; reflexivity);
      rewrite Hb; apply ge_float_leb;
      apply (fold_add_ge m e (bump wl) _ B)
  end.
  - apply Forall_forall. intros f Hf. apply filter_In in Hf as [Hf Hc].
    rewrite bump_factor. apply mul_nonneg.
    + pose proof extraDepth_positive as P. rewrite Forall_forall in P.
      apply P. exact Hf.
    + apply H; assumption.
  - change (Prim2SF baseDepth) with (Prim2SF (@baseDepth float _)).
    replace (Prim2SF (@baseDepth float _)) with b
      by (rewrite Hb; vm_compute; reflexivity).
    rewrite Hb. apply ge_float_refl.
Qed.

End FeaturesBinary64.

(** C7: on every number system the depth of a channel is the baseline plus
    the Gaussian bump of each range whose interval contains the wavelength,
    added one after the other with no cap and no normalisation. The depth
    is at least the baseline
    - on binary64, through the rounding of every product and sum, for every
      wavelength (NaN and the infinities included) and every math library
      whose [Math.exp] is not negative at the arguments the handler passes
      for that wavelength;
    - over the reals, for every wavelength. *)
Theorem channel_depth_superposition :
  (forall (num : Type) (N : JSNumber num) (M : MathLib num) (wl : num),
      channel_depth wl
      = fold_left (fun depth f => depth + bump wl f)%js
                  (filter (contains wl) ranges) baseDepth)
  /\ (forall (M : MathLib float) (wl : float),
        (forall f, In f ranges -> contains wl f = true ->
                   (of_Z 0 <=? Math_exp (bump_exponent wl f))%js = true) ->
        (baseDepth <=? channel_depth wl)%js = true)
  /\ (forall wl : R, (baseDepth <= @channel_depth R _ _ wl)%R).
Proof.
  split; [|split].
  - intros num N M wl. apply channel_depth_sum.
  - intros M wl H. apply channel_depth_ge_baseline. exact H.
  - intros wl. rewrite channel_depth_sum.
    apply (fold_add_nonneg (bump wl)).
    apply incl_Forall with (l1 := ranges); [|apply bump_real_nonneg].
    intros f Hf. apply filter_In in Hf. apply Hf.
Qed.

Lemma channel_depth_superposition_witness :
  (forall f, In f ranges -> contains (dec 14 1 : float) f = true ->
             nle (of_Z 0) (@Math_exp float SampleMath
                             (@bump_exponent float _ SampleMath (dec 14 1) f))
             = true)
  /\ nle baseDepth (@channel_depth float _ SampleMath (dec 14 1)) = true
  /\ nlt baseDepth (@channel_depth float _ SampleMath (dec 14 1)) = true.
Proof.
  assert (H : forall f, In f ranges -> contains (dec 14 1 : float) f = true ->
                nle (of_Z 0) (@Math_exp float SampleMath
                                (@bump_exponent float _ SampleMath (dec 14 1) f))
                = true).
  { intros f Hf Hc. unfold ranges, molecularEffects in Hf.
    cbn [map snd concat app In] in Hf.
    repeat (destruct Hf as [<-|Hf];
            [first [vm_compute; reflexivity | vm_compute in Hc; discriminate Hc]|]).
    destruct Hf. }
  split; [exact H|]. split.
  - exact (proj1 (proj2 channel_depth_superposition) SampleMath (dec 14 1) H).
  - vm_compute. reflexivity.
Defined.

(** ** The transmission-spectrum estimator *)

Section Estimator.
Context {num : Type} {N : JSNumber num}.
Local Open Scope js_scope.

Lemma accumulate_fold (l : list num) :
  forall a : Sums num,
    sum (fold_left accumulate l a) = fold_left nadd l (sum a)
    /\ sqSum (fold_left accumulate l a)
       = fold_left (fun s x => s + x * x) l (sqSum a)
    /\ count (fold_left accumulate l a) = (count a + Z.of_nat (length l))%Z.
Proof.
  induction l as [|x l IH]; intros a; simpl fold_left.
  - repeat split. simpl. lia.
  - destruct (IH (accumulate a x)) as (H1 & H2 & H3).
    rewrite H1, H2, H3. repeat split.
    unfold accumulate; cbn [count length]. lia.
Qed.

Lemma channel_sums_fold (inMask outMask : list bool) (flux : list (list num))
    (j : nat) (l : list nat) :
  forall a b : Sums num,
    fold_left
      (fun acc i =>
         let a_in := if nth i inMask false
                     then accumulate (fst acc) (cell flux i j) else fst acc in
         let a_out := if nth i outMask false
                      then accumulate (snd acc) (cell flux i j) else snd acc in
         (a_in, a_out)) l (a, b)
    = (fold_left accumulate
         (map (fun i => cell flux i j)
              (filter (fun i => nth i inMask false) l)) a,
       fold_left accumulate
         (map (fun i => cell flux i j)
              (filter (fun i => nth i outMask false) l)) b).
Proof.
  induction l as [|i l IH]; intros a b; [reflexivity|].
  cbn [fold_left filter fst snd]. rewrite IH.
  destruct (nth i inMask false), (nth i outMask false); reflexivity.
Qed.

(** The loop computes the statistics of the two selected samples. *)
Lemma estimate_channel_stats (inMask outMask : list bool)
    (flux : list (list num)) (j : nat) :
  estimate_channel inMask outMask flux j
  = (depth_ppm (selected (fun i => nth i inMask false) flux j)
               (selected (fun i => nth i outMask false) flux j),
     depth_err_ppm (selected (fun i => nth i inMask false) flux j)
                   (selected (fun i => nth i outMask false) flux j)).
Proof.
  unfold estimate_channel, channel_sums. rewrite channel_sums_fold.
  unfold depth_ppm, depth_err_ppm, std, mean, mean_of_squares, selected.
  set (xin := map _ (filter (fun i => nth i inMask false) _)).
  set (xout := map _ (filter (fun i => nth i outMask false) _)).
  destruct (accumulate_fold xin no_sums) as (I1 & I2 & I3).
  destruct (accumulate_fold xout no_sums) as (O1 & O2 & O3).
  cbv beta iota zeta.
  rewrite I1, I2, I3, O1, O2, O3.
  reflexivity.
Qed.

Lemma mask_nth (sel : num -> bool) (i : nat) :
  (i < nTimes)%nat -> nth i (map sel phase) false = sel (nth i phase NaN).
Proof.
  intros Hi.
  rewrite (nth_indep _ false (sel NaN))
    by (rewrite length_map, length_phase; exact Hi).
  apply map_nth.
Qed.

Lemma selected_ext (f g : nat -> bool) (flux : list (list num)) (j : nat) :
  (forall i, (i < nTimes)%nat -> f i = g i) ->
  selected f flux j = selected g flux j.
Proof.
  intros E. unfold selected. f_equal. apply filter_ext_in.
  intros i Hi. apply in_seq in Hi. apply E. lia.
Qed.

End Estimator.

Lemma in_transit_real (p : R) :
  (in_transit p = true <-> (Rabs p < 15 / 1000)%R)
  /\ (out_of_transit p = true <-> (25 / 1000 < Rabs p)%R).
Proof.
  unfold in_transit, out_of_transit, transitDuration. rewrite !dec_real.
  cbn [of_Z nadd ndiv nlt Math_abs Ideal].
  change (10 ^ Z.of_nat 2)%Z with 100%Z.
  unfold Rltb. split.
  - destruct (Rlt_dec (Rabs p) (3 / 100 / 2)); split; intros H;
      try reflexivity; try discriminate; lra.
  - destruct (Rlt_dec (3 / 100 / 2 + 1 / 100) (Rabs p)); split; intros H;
      try reflexivity; try discriminate; lra.
Qed.

(** C4: for every flux cube and channel, on every number system, the
    estimator's loop selects the samples with [|phase| < transitDuration/2]
    and those with [|phase| > transitDuration/2 + 0.01], takes the population
    mean and the deviation [sqrt(E[x^2] - E[x]^2)] of the flux in each, and
    pushes [(1 - inMean/outMean) * 1e6] and
    [sqrt(inStd^2 + outStd^2) / outMean * 1e6]. Over the reals the first
    set is [|phase| < 0.015] and the second [|phase| > 0.025], so a sample
    in the gap is in neither; on the binary64 phase grid 30 samples are in
    transit, 50 out of transit, and none is in both. *)
Theorem estimator_formula :
  (forall (num : Type) (N : JSNumber num) (flux : list (list num)) (j : nat),
      let xin := selected (fun i => in_transit (nth i phase NaN)) flux j in
      let xout := selected (fun i => out_of_transit (nth i phase NaN)) flux j in
      estimate_channel inTransitMask outTransitMask flux j
      = (depth_ppm xin xout, depth_err_ppm xin xout))
  /\ (forall (num : Type) (N : JSNumber num) (flux : list (list num)),
        estimate inTransitMask outTransitMask flux
        = map (fun j =>
                 (depth_ppm
                    (selected (fun i => in_transit (nth i phase NaN)) flux j)
                    (selected (fun i => out_of_transit (nth i phase NaN)) flux j),
                  depth_err_ppm
                    (selected (fun i => in_transit (nth i phase NaN)) flux j)
                    (selected (fun i => out_of_transit (nth i phase NaN)) flux j)))
              (seq 0 nWavelengths))
  /\ (forall p : R,
        (in_transit p = true <-> (Rabs p < 15 / 1000)%R)
        /\ (out_of_transit p = true <-> (25 / 1000 < Rabs p)%R)
        /\ ((15 / 1000 <= Rabs p <= 25 / 1000)%R ->
            in_transit p = false /\ out_of_transit p = false))
  /\ (count_true (@inTransitMask float _) = 30%nat
      /\ count_true (@outTransitMask float _) = 50%nat
      /\ forall i, nth i (@inTransitMask float _) false = true ->
                   nth i (@outTransitMask float _) false = false).
Proof.
  assert (E : forall (num : Type) (N : JSNumber num) (flux : list (list num))
                     (j : nat),
             estimate_channel inTransitMask outTransitMask flux j
             = (depth_ppm
                  (selected (fun i => in_transit (nth i phase NaN)) flux j)
                  (selected (fun i => out_of_transit (nth i phase NaN)) flux j),
                depth_err_ppm
                  (selected (fun i => in_transit (nth i phase NaN)) flux j)
                  (selected (fun i => out_of_transit (nth i phase NaN)) flux j))).
  { intros num N flux j. rewrite estimate_channel_stats.
    rewrite (selected_ext (fun i => nth i inTransitMask false)
               (fun i => in_transit (nth i phase NaN)))
      by (intros i Hi; apply (mask_nth in_transit i Hi)).
    rewrite (selected_ext (fun i => nth i outTransitMask false)
               (fun i => out_of_transit (nth i phase NaN)))
      by (intros i Hi; apply (mask_nth out_of_transit i Hi)).
    reflexivity. }
  split; [|split; [|split]].
  - intros num N flux j xin xout. apply E.
  - intros num N flux. unfold estimate. apply map_ext. intros j. apply E.
  - intros p. destruct (in_transit_real p) as [H1 H2].
    split; [exact H1|]. split; [exact H2|].
    intros [Ha Hb]. split.
    + destruct (in_transit p); [|reflexivity].
      assert (Rabs p < 15 / 1000)%R by (apply H1; reflexivity). lra.
    + destruct (out_of_transit p); [|reflexivity].
      assert (25 / 1000 < Rabs p)%R by (apply H2; reflexivity). lra.
  - split; [vm_compute; reflexivity|]. split; [vm_compute; reflexivity|].
    intros i Hi.
    destruct (Nat.lt_ge_cases i 100) as [Hlt|Hge].
    + assert (C : forallb (fun i => negb (nth i (@inTransitMask float _) false)
                                    || negb (nth i (@outTransitMask float _) false))
                          (seq 0 100) = true) by (vm_compute; reflexivity).
      rewrite forallb_forall in C.
      specialize (C i ltac:(apply in_seq; lia)).
      rewrite Hi in C. apply negb_true_iff. exact C.
    + apply nth_overflow. unfold outTransitMask, outTransitMask_of.
      rewrite length_map, length_phase. exact Hge.
Qed.

(** ** Empty sample sets *)




(** ** The Gaussian sampler at a zero variate *)

Lemma infinity_mul (c : float) :
  PrimFloat.mul infinity c = infinity
  \/ PrimFloat.mul infinity c = neg_infinity
  \/ PrimFloat.mul infinity c = nan.
Proof.
  assert (H : Prim2SF (PrimFloat.mul infinity c)
              = SFmul prec emax (S754_infinity false) (Prim2SF c))
    by apply mul_spec.
  destruct (Prim2SF c) as [[|]|[|]| |[|] m e]; cbn in H.
  - right; right. apply Prim2SF_inj. exact H.
  - right; right. apply Prim2SF_inj. exact H.
  - right; left. apply Prim2SF_inj. exact H.
  - left. apply Prim2SF_inj. exact H.
  - right; right. apply Prim2SF_inj. exact H.
  - right; left. apply Prim2SF_inj. exact H.
  - left. apply Prim2SF_inj. exact H.
Qed.

Lemma lcg_mod_state (seed : Z) :
  (0 <= seed)%Z -> lcg seed = lcg (seed mod 233280).
Proof.
  intros H.
  pose proof (Z.mod_pos_bound seed 233280 ltac:(lia)) as B.
  rewrite !lcg_mod by lia.
  rewrite <- (Z.add_mod_idemp_l (seed mod 233280 * 9301)) by lia.
  rewrite Z.mul_mod_idemp_l, Z.add_mod_idemp_l by lia.
  reflexivity.
Qed.

(** Checked on each residue: the successor is 0 only at 22643. *)
Lemma lcg_zero_check :
  all_from 233280 0 (fun r => negb (lcg r =? 0)%Z || (r =? 22643)%Z) = true.
Proof. vm_compute. reflexivity. Qed.

(** The states from which the next variate is 0. *)
Lemma lcg_zero (seed : Z) :
  (0 <= seed)%Z -> (lcg seed = 0%Z <-> (seed mod 233280 = 22643)%Z).
Proof.
  intros H. rewrite lcg_mod_state by exact H.
  pose proof (Z.mod_pos_bound seed 233280 ltac:(lia)) as B.
  generalize dependent (seed mod 233280)%Z. intros r Hr.
  split.
  - intros E.
    assert (Hn : Z.of_nat 233280 = 233280%Z) by (vm_compute; reflexivity).
    pose proof (all_from_spec _ _ _ lcg_zero_check r) as Hc. rewrite Hn in Hc.
    specialize (Hc ltac:(lia)). cbv beta in Hc. rewrite E in Hc.
    apply Z.eqb_eq. exact Hc.
  - intros ->. reflexivity.
Qed.

Section Sampler.
Context {M : MathLib float}.
Local Open Scope js_scope.

(** What the sampler returns from a state whose successor is 0. *)
Lemma gaussianRandom_at_zero (seed : Z) (mean stdDev : float) :
  lcg seed = 0%Z ->
  fst (gaussianRandom mean stdDev seed)
  = Math_sqrt (- (of_Z 2) * Math_log (of_Z 0))
    * Math_cos (of_Z 2 * Math_PI * (of_Z 49297 / of_Z 233280))
    * stdDev + mean.
Proof.
  intros H. unfold gaussianRandom, bind, rand, ret. rewrite H. reflexivity.
Qed.

Lemma noise_at_zero (seed : Z) :
  lcg seed = 0%Z ->
  Math_log (of_Z 0) = neg_infinity ->
  let noise := fst (gaussianRandom (of_Z 0) (dec 5 4) seed) in
  noise = infinity \/ noise = neg_infinity \/ noise = nan.
Proof.
  intros H L noise. unfold noise. rewrite gaussianRandom_at_zero by exact H.
  rewrite L.
  change (Math_sqrt (- (of_Z 2) * neg_infinity)) with infinity.
  set (c := Math_cos _).
  cbn [nmul nadd Float64].
  destruct (infinity_mul c) as [-> | [-> | ->]].
  - left. reflexivity.
  - right; left. reflexivity.
  - right; right. reflexivity.
Qed.

End Sampler.

(** ** The Gaussian sampler on binary64 *)

(** A logarithm between -13 and 0 is zero or negative with exponent at most
    that of 13. *)
Lemma log_value_cases (L : float) :
  PrimFloat.leb (of_Z (-13)) L = true -> PrimFloat.leb L (of_Z 0) = true ->
  (exists s, Prim2SF L = S754_zero s)
  \/ exists m e, Prim2SF L = S754_finite true m e /\ (e <= -49)%Z.
Proof.
  rewrite !leb_spec. change (Prim2SF (of_Z 0)) with (S754_zero false).
  set (c := Prim2SF (of_Z (-13))). vm_compute in c. subst c.
  destruct (Prim2SF L) as [s|[|]| |[|] m e]; cbn [SFleb SFcompare];
    try discriminate.
  - intros _ _. left. exists s. reflexivity.
  - intros H _. right. exists m, e. split; [reflexivity|].
    destruct (Z.compare_spec (-49) e) as [E|E|E]; try lia; discriminate.
Qed.

(** [-2 * Math.log(u)] for a logarithm in that range: zero or positive,
    and finite. *)
Lemma neg2_log_finite (L : float) :
  PrimFloat.leb (of_Z (-13)) L = true -> PrimFloat.leb L (of_Z 0) = true ->
  let P := Prim2SF (PrimFloat.mul (PrimFloat.opp (of_Z 2)) L) in
  (exists s, P = S754_zero s) \/ (exists m e, P = S754_finite false m e).
Proof.
  intros H1 H2 P. unfold P. rewrite mul_spec.
  set (c := Prim2SF (PrimFloat.opp (of_Z 2))). vm_compute in c. subst c.
  destruct (log_value_cases L H1 H2) as [(s & E)|(m & e & E & He)].
  - rewrite E. left. exists (xorb true s). reflexivity.
  - pose proof (bounded_mantissa m e (valid_mantissa L _ _ _ E)) as Bm.
    rewrite E.
    assert (F : finite_or_zero
                  (SFmul prec emax (S754_finite true 4503599627370496 (-51))
                         (S754_finite true m e)))
      by (apply SFmul_room; lia).
    assert (G : signed false
                  (SFmul prec emax (S754_finite true 4503599627370496 (-51))
                         (S754_finite true m e)))
      by (cbn [SFmul xorb]; apply binary_round_aux_signed; lia).
    destruct G as [G|[G|G]].
    + left. exists false. exact G.
    + right. exact G.
    + rewrite G in F. destruct F as [(s & F)|(s & m' & e' & F)]; discriminate.
Qed.

Lemma sqrt_finite (x : float) :
  ((exists s, Prim2SF x = S754_zero s)
   \/ (exists m e, Prim2SF x = S754_finite false m e)) ->
  finite_or_zero (Prim2SF (PrimFloat.sqrt x)).
Proof.
  intros [(s & E)|(m & e & E)]; rewrite sqrt_spec, E.
  - left. exists s. reflexivity.
  - apply SFsqrt_finite. apply (valid_mantissa x _ _ _ E).
Qed.

Section SamplerValues.
Context {M : MathLib float}.
Local Open Scope js_scope.

Lemma gaussianRandom_value (seed : Z) (mean stdDev : float) :
  fst (gaussianRandom mean stdDev seed)
  = Math_sqrt (- (of_Z 2) * Math_log (variate (lcg seed)))
    * Math_cos (of_Z 2 * Math_PI * variate (lcg (lcg seed)))
    * stdDev + mean.
Proof. reflexivity. Qed.

(** From a state whose successor is not 0 the noise is not NaN. *)
Lemma noise_not_nan (seed : Z) :
  (0 <= seed)%Z -> lcg seed <> 0%Z ->
  log_in_range M (lcg seed) = true ->
  cos_finite M (lcg (lcg seed)) = true ->
  Prim2SF (fst (gaussianRandom (of_Z 0) (dec 5 4) seed)) <> S754_nan.
Proof.
  intros Hs Hz HL HC. rewrite gaussianRandom_value.
  unfold log_in_range in HL. apply andb_true_iff in HL as [L1 L2].
  unfold cos_finite in HC.
  cbn [nle nlt nmul nadd nneg Math_sqrt Math_abs Float64] in *.
  apply add_zero_not_nan. apply mul_not_nan.
  - rewrite mul_spec. apply SFmul_finite.
    + apply sqrt_finite. apply (neg2_log_finite _ L1 L2).
    + apply abs_ltb_infinity_finite. exact HC.
  - vm_compute. eexists. eexists. reflexivity.
Qed.

(** From a state whose successor is 0 the noise is [+Infinity]. *)
Lemma noise_infinite (seed : Z) :
  lcg seed = 0%Z -> log_cos_on_variates M ->
  fst (gaussianRandom (of_Z 0) (dec 5 4) seed) = infinity.
Proof.
  intros H (L0 & _ & _ & C0). rewrite gaussianRandom_value, H.
  change (variate 0) with (of_Z 0 : float). rewrite L0.
  change (lcg 0) with 49297%Z.
  change (Math_sqrt (- (of_Z 2) * neg_infinity)) with infinity.
  cbn [nmul nadd nlt Float64] in *.
  rewrite (infinity_mul_positive _ C0). vm_compute. reflexivity.
Qed.

End SamplerValues.

(** C2, as the handler behaves. The sampler has no guard: it draws [u1] and
    passes it to [Math.log] as it is. For a math library whose logarithm and
    cosine are in range on the generator's variates (see
    [log_cos_on_variates]):
    - the successor of a state [seed >= 0] is 0 exactly when [seed] is
      congruent to 22643 modulo 233280; from every other state [u1] lies
      strictly between 0 and 1;
    - from such a state [u1] is exactly 0 and [Math.log(0)] enters the
      result; the noise the handler adds to the flux (mean 0, deviation
      0.0005) is then [+Infinity];
    - from no state [seed >= 0] is that noise NaN. *)
Theorem gaussianRandom_unguarded :
  forall M : MathLib float, log_cos_on_variates M ->
    (forall seed : Z, (0 <= seed)%Z ->
        (lcg seed = 0%Z <-> (seed mod 233280 = 22643)%Z))
    /\ (forall seed : Z, (0 <= seed)%Z -> lcg seed <> 0%Z ->
          (of_Z 0 <? fst (@rand float _ seed))%js = true
          /\ (fst (@rand float _ seed) <? of_Z 1)%js = true)
    /\ (forall (seed : Z) (mean stdDev : float), lcg seed = 0%Z ->
          fst (@rand float _ seed) = of_Z 0
          /\ fst (gaussianRandom mean stdDev seed)
             = (Math_sqrt (- (of_Z 2) * Math_log (of_Z 0))
                * Math_cos (of_Z 2 * Math_PI * (of_Z 49297 / of_Z 233280))
                * stdDev + mean)%js)
    /\ (forall seed : Z, lcg seed = 0%Z ->
          fst (gaussianRandom (of_Z 0) (dec 5 4) seed) = infinity)
    /\ (forall seed : Z, (0 <= seed)%Z ->
          PrimFloat.is_nan (fst (gaussianRandom (of_Z 0) (dec 5 4) seed)) = false).
Proof.
  intros M HM. split; [|split; [|split; [|split]]].
  - apply lcg_zero.
  - intros seed Hs Hz.
    destruct (rand_float_range (lcg seed) (lcg_range seed Hs)) as (_ & H2 & H3).
    split; [apply H3; exact Hz|exact H2].
  - intros seed mean stdDev H. split.
    + unfold rand. rewrite H. reflexivity.
    + apply gaussianRandom_at_zero. exact H.
  - intros seed H. apply noise_infinite; assumption.
  - intros seed Hs. destruct (Z.eq_dec (lcg seed) 0) as [Hz|Hz].
    + rewrite (noise_infinite seed Hz HM). reflexivity.
    + apply not_nan_is_nan.
      destruct HM as (_ & HL & HC & _).
      pose proof (lcg_range seed Hs) as R1.
      pose proof (lcg_range (lcg seed) ltac:(lia)) as R2.
      apply noise_not_nan; [exact Hs|exact Hz|apply HL; lia|apply HC; lia].
Qed.

Lemma sample_log_cos : log_cos_on_variates SampleMath.
Proof.
  split; [reflexivity|]. split; [|split].
  - intros s Hs.
    assert (C : all_from 233279 1 (log_in_range SampleMath) = true)
      by (vm_compute; reflexivity).
    pose proof (all_from_spec _ _ _ C s) as H.
    assert (Hn : Z.of_nat 233279 = 233279%Z) by (vm_compute; reflexivity).
    rewrite Hn in H. apply H. lia.
  - intros s Hs.
    assert (C : all_from 233280 0 (cos_finite SampleMath) = true)
      by (vm_compute; reflexivity).
    pose proof (all_from_spec _ _ _ C s) as H.
    assert (Hn : Z.of_nat 233280 = 233280%Z) by (vm_compute; reflexivity).
    rewrite Hn in H. apply H. lia.
  - vm_compute. reflexivity.
Qed.

Lemma gaussianRandom_unguarded_witness :
  log_cos_on_variates SampleMath
  /\ fst (@gaussianRandom float _ SampleMath (of_Z 0) (dec 5 4)
            (hashString (js "Dabx"))) = infinity
  /\ PrimFloat.is_nan (fst (@gaussianRandom float _ SampleMath (of_Z 0) (dec 5 4)
                              (hashString (js "K2-18 b")))) = false.
Proof.
  split; [exact sample_log_cos|].
  destruct (gaussianRandom_unguarded SampleMath sample_log_cos)
    as (_ & _ & _ & H4 & H5).
  split; [apply H4; vm_compute; reflexivity|apply H5; vm_compute; discriminate].
Defined.

(** Against C2 as stated: the target "Dabx" seeds the generator at a state
    whose successor is 0. The first variate the sampler draws, for the first
    cell of the flux cube, is exactly 0, and whatever [Math.log] returns for
    0 goes into the noise. For the catalogue target "K2-18 b" the same
    happens at the 28607th call of the generator, the [u1] of the sample for
    time index 3 of channel 143. *)
Lemma gaussianRandom_draws_zero :
  fst (@rand float _ (hashString (js "Dabx"))) = of_Z 0
  /\ (forall (M : MathLib float) (mean stdDev : float),
        fst (gaussianRandom mean stdDev (hashString (js "Dabx")))
        = (Math_sqrt (- (of_Z 2) * Math_log (of_Z 0))
           * Math_cos (of_Z 2 * Math_PI * (of_Z 49297 / of_Z 233280))
           * stdDev + mean)%js)
  /\ Nat.iter (2 * (143 * 100 + 3)) lcg (hashString (js "K2-18 b")) = 22643%Z
  /\ fst (@rand float _ 22643%Z) = of_Z 0.
Proof.
  split; [vm_compute; reflexivity|]. split; [|split].
  - intros M mean stdDev. apply gaussianRandom_at_zero. vm_compute. reflexivity.
  - vm_compute. reflexivity.
  - vm_compute. reflexivity.
Qed.

(** ** The binner *)

Lemma map_nth_seq {A} (d : A) (n : nat) :
  forall l : list A, (n <= length l)%nat ->
  map (fun k => nth k l d) (seq 0 n) = firstn n l.
Proof.
  induction n as [|n IH]; intros l Hl; [reflexivity|].
  destruct l as [|x l]; [simpl in Hl; lia|].
  cbn [seq map firstn nth]. f_equal.
  rewrite <- seq_shift, map_map. apply IH. simpl in Hl. lia.
Qed.

Lemma map_nth_offset {A} (d : A) (n : nat) :
  forall (o : nat) (l : list A), (o + n <= length l)%nat ->
  map (fun k => nth (o + k) l d) (seq 0 n) = firstn n (skipn o l).
Proof.
  intros o. induction o as [|o IH]; intros l Hl.
  - apply map_nth_seq. exact Hl.
  - destruct l as [|x l]; [simpl in Hl; lia|].
    cbn [skipn Nat.add nth]. apply IH. simpl in Hl. lia.
Qed.

Lemma fold_left_map_r {A B C} (g : A -> C -> A) (f : B -> C) (l : list B) :
  forall a, fold_left (fun a b => g a (f b)) l a = fold_left g (map f l) a.
Proof.
  induction l as [|b l IH]; intros a; simpl; [reflexivity|apply IH].
Qed.

Section Binner.
Context {num : Type} {N : JSNumber num}.
Local Open Scope js_scope.

Lemma bin_sum_chunk (B : Z) (l : list num) (b : nat) :
  (0 <= B)%Z -> (b * Z.to_nat B + Z.to_nat B <= length l)%nat ->
  bin_sum (Int B) (fun idx => nth idx l NaN) b
  = fold_left nadd (chunk (Z.to_nat B) b l) (of_Z 0).
Proof.
  intros HB Hl. unfold bin_sum, chunk. cbn [trips].
  rewrite (fold_left_map_r nadd (fun k => nth (b * Z.to_nat B + k) l NaN)).
  rewrite map_nth_offset by exact Hl. reflexivity.
Qed.

(** A bin's sum reads only the positions of the bin. *)
Lemma bin_sum_reads (binSize : jsint) (read read' : nat -> num) (b : nat) :
  (forall k, (k < trips binSize)%nat ->
             read' (b * trips binSize + k)%nat = read (b * trips binSize + k)%nat) ->
  bin_sum binSize read' b = bin_sum binSize read b.
Proof.
  intros H. unfold bin_sum.
  assert (G : forall l a, (forall k, In k l -> (k < trips binSize)%nat) ->
              fold_left (fun s k => s + read' (b * trips binSize + k)%nat) l a
              = fold_left (fun s k => s + read (b * trips binSize + k)%nat) l a).
  { induction l as [|k l IH]; intros a Hk; [reflexivity|].
    cbn [fold_left]. rewrite H by (apply Hk; left; reflexivity).
    apply IH. intros k' Hk'. apply Hk. right. exact Hk'. }
  apply G. intros k Hk. apply in_seq in Hk. lia.
Qed.

End Binner.

Lemma bins_fit (B : Z) (b : nat) :
  (0 < B)%Z -> (b < Z.to_nat (200 / B))%nat ->
  (b * Z.to_nat B + Z.to_nat B <= 200)%nat.
Proof.
  intros HB Hb.
  assert (H0 : (0 <= 200 / B)%Z) by (apply Z.div_pos; lia).
  assert (H1 : (B * (200 / B) <= 200)%Z) by (apply Z.mul_div_le; lia).
  assert (H2 : (Z.of_nat b + 1 <= 200 / B)%Z) by lia.
  assert (H3 : (B * (Z.of_nat b + 1) <= B * (200 / B))%Z)
    by (apply Z.mul_le_mono_nonneg_l; lia).
  apply Nat2Z.inj_le. rewrite Nat2Z.inj_add, Nat2Z.inj_mul, Z2Nat.id by lia.
  change (Z.of_nat 200) with 200%Z. lia.
Qed.

(** C5: for a bin size [B] in [5, 100] and 200 wavelengths, on every number
    system, the binner produces [floor(200 / B)] bins; bin [b] of the
    wavelengths and of the depths is the unweighted mean of the [B] values at
    positions [b*B .. b*B + B - 1], the binned depth error is that mean
    divided further by [sqrt(B)], and each row of the flux cube is binned the
    same way; no output depends on the values at positions from
    [floor(200 / B) * B] on. *)
Theorem binner_means :
  forall (num : Type) (N : JSNumber num) (B : Z)
         (wls depth err : list num) (flux : list (list num)),
    (5 <= B <= 100)%Z ->
    length wls = 200%nat -> length depth = 200%nat -> length err = 200%nat ->
    length flux = nTimes -> Forall (fun row => length row = 200%nat) flux ->
    let n := Z.to_nat B in
    let nBins := Z.to_nat (200 / B) in
    let r := bin (Int B) wls depth err flux in
    floor_div (Z.of_nat nWavelengths) (Int B) = Int (200 / B)
    /\ length (wavelengthsBinned r) = nBins
    /\ length (transitDepthBinned r) = nBins
    /\ length (transitDepthErrBinned r) = nBins
    /\ Forall (fun row => length row = nBins) (fluxBinned r)
    /\ wavelengthsBinned r
       = map (fun b => average (chunk n b wls) B) (seq 0 nBins)
    /\ transitDepthBinned r
       = map (fun b => average (chunk n b depth) B) (seq 0 nBins)
    /\ transitDepthErrBinned r
       = map (fun b => average (chunk n b err) B / Math_sqrt (of_Z B))%js
             (seq 0 nBins)
    /\ fluxBinned r
       = map (fun row => map (fun b => average (chunk n b row) B) (seq 0 nBins))
             flux
    /\ (forall (wls' depth' err' : list num) (flux' : list (list num)),
           (forall idx, (idx < nBins * n)%nat ->
                        nth idx wls' NaN = nth idx wls NaN
                        /\ nth idx depth' NaN = nth idx depth NaN
                        /\ nth idx err' NaN = nth idx err NaN
                        /\ forall i, cell flux' i idx = cell flux i idx) ->
           bin (Int B) wls' depth' err' flux' = r).
Proof.
  intros num N B wls depth err flux HB Hw Hd He Hf Hrows n nBins r.
  assert (Hfit : forall b, In b (seq 0 nBins) ->
                           (b * n + n <= 200)%nat).
  { intros b Hb. apply in_seq in Hb. apply bins_fit; [lia|]. unfold nBins in Hb. lia. }
  assert (Hsum : forall l b, length l = 200%nat -> In b (seq 0 nBins) ->
                   bin_sum (Int B) (fun idx => nth idx l NaN) b
                   = fold_left nadd (chunk n b l) (of_Z 0)).
  { intros l b Hl Hb. apply bin_sum_chunk; [lia|].
    rewrite Hl. apply Hfit. exact Hb. }
  assert (Ew : wavelengthsBinned r
               = map (fun b => average (chunk n b wls) B) (seq 0 nBins)).
  { apply map_ext_in. intros b Hb. unfold average.
    rewrite (Hsum wls b Hw Hb). reflexivity. }
  assert (Ed : transitDepthBinned r
               = map (fun b => average (chunk n b depth) B) (seq 0 nBins)).
  { apply map_ext_in. intros b Hb. unfold average.
    rewrite (Hsum depth b Hd Hb). reflexivity. }
  assert (Ee : transitDepthErrBinned r
               = map (fun b => average (chunk n b err) B / Math_sqrt (of_Z B))%js
                     (seq 0 nBins)).
  { apply map_ext_in. intros b Hb. unfold average.
    rewrite (Hsum err b He Hb). reflexivity. }
  assert (Ef : fluxBinned r
               = map (fun row => map (fun b => average (chunk n b row) B)
                                     (seq 0 nBins)) flux).
  { transitivity
      (map (fun row => map (fun b => average (chunk n b row) B) (seq 0 nBins))
           (map (fun i => nth i flux []) (seq 0 nTimes))).
    - cbn [r bin fluxBinned]. rewrite map_map. apply map_ext_in.
      intros i Hi. apply in_seq in Hi. apply map_ext_in. intros b Hb.
      unfold average, cell.
      rewrite (Hsum (nth i flux []) b); [reflexivity| |exact Hb].
      rewrite Forall_forall in Hrows. apply Hrows. apply nth_In. lia.
    - rewrite map_nth_seq by lia. rewrite <- Hf, firstn_all. reflexivity. }
  split; [reflexivity|].
  split; [rewrite Ew, length_map, length_seq; reflexivity|].
  split; [rewrite Ed, length_map, length_seq; reflexivity|].
  split; [rewrite Ee, length_map, length_seq; reflexivity|].
  split.
  { rewrite Ef. apply Forall_forall. intros row Hrow.
    apply in_map_iff in Hrow. destruct Hrow as (row0 & <- & _).
    rewrite length_map, length_seq. reflexivity. }
  split; [exact Ew|]. split; [exact Ed|]. split; [exact Ee|].
  split; [exact Ef|].
  intros wls' depth' err' flux' Hagree.
  assert (Hidx : forall b k, In b (seq 0 nBins) -> (k < n)%nat ->
                             (b * n + k < nBins * n)%nat).
  { intros b k Hb Hk. apply in_seq in Hb. nia. }
  unfold r, bin. fold nBins. cbn [floor_div trips]. fold nBins.
  f_equal.
  - apply map_ext_in. intros b Hb. f_equal. apply bin_sum_reads.
    intros k Hk. apply (Hagree _ (Hidx b k Hb Hk)).
  - apply map_ext_in. intros b Hb. f_equal. apply bin_sum_reads.
    intros k Hk. apply (Hagree _ (Hidx b k Hb Hk)).
  - apply map_ext_in. intros b Hb. f_equal. f_equal. apply bin_sum_reads.
    intros k Hk. apply (Hagree _ (Hidx b k Hb Hk)).
  - apply map_ext. intros i. apply map_ext_in. intros b Hb. f_equal.
    apply bin_sum_reads.
    intros k Hk. apply (Hagree _ (Hidx b k Hb Hk)).
Qed.

Lemma binner_means_witness :
  length (wavelengthsBinned
            (bin (Int 7) (@wavelengths float _)
                 (repeat (of_Z 1) 200) (repeat (of_Z 1) 200)
                 (repeat (repeat (of_Z 1) 200) 100)))
  = 28%nat.
Proof.
  assert (Hrows : Forall (fun row : list float => length row = 200%nat)
                         (repeat (repeat (of_Z 1) 200) 100)).
  { apply Forall_forall. intros row Hr. apply repeat_spec in Hr.
    rewrite Hr. apply repeat_length. }
  assert (HB : (5 <= 7 <= 100)%Z) by (split; discriminate).
  exact (proj1 (proj2
           (binner_means float Float64 7 wavelengths
              (repeat (of_Z 1) 200) (repeat (of_Z 1) 200)
              (repeat (repeat (of_Z 1) 200) 100)
              HB length_wavelengths (repeat_length _ _) (repeat_length _ _)
              (repeat_length _ _) Hrows))).
Defined.

(** ** The handler's response *)

(** C10: when [parseInt] of the bin_size parameter (or of the default "20"
    for a missing or empty one) is NaN, [Math.max] and [Math.min] return NaN:
    the bin size and the number of bins are NaN, no loop over the bins runs,
    the binned wavelengths, depths, errors and every row of the binned flux
    cube are empty, and each of the 100 light-curve values is NaN. *)
Theorem nan_bin_size :
  forall (M : MathLib float) (tgt : js_string) (bin_size : option js_string),
    parseInt (or_default bin_size (js "20")) = NaNint ->
    let r := GET (num := float) tgt bin_size in
    binSize_of bin_size = NaNint
    /\ floor_div (Z.of_nat nWavelengths) (binSize_of bin_size) = NaNint
    /\ wavelengths_out r = []
    /\ ts_wavelengths (transmission_spectrum r) = []
    /\ transit_depth_ppm (transmission_spectrum r) = []
    /\ transit_depth_err_ppm (transmission_spectrum r) = []
    /\ flux_out r = repeat [] 100
    /\ lightcurve_flux r = repeat nan 100.
Proof.
  intros M tgt bin_size H r.
  assert (Hb : binSize_of bin_size = NaNint)
    by (unfold binSize_of; rewrite H; reflexivity).
  unfold r, GET. rewrite Hb.
  destruct (fst (synthesize (hashString tgt))) as [flux raw].
  cbn [floor_div wavelengths_out transmission_spectrum ts_wavelengths
       transit_depth_ppm transit_depth_err_ppm flux_out lightcurve_flux].
  repeat split; vm_compute; reflexivity.
Qed.

Lemma nan_bin_size_witness :
  parseInt (or_default (Some (js "abc")) (js "20")) = NaNint
  /\ lightcurve_flux (GET (num := float) (M := SampleMath)
                         (js "WASP-39 b") (Some (js "abc")))
     = repeat nan 100.
Proof.
  split; [reflexivity|].
  apply (nan_bin_size SampleMath (js "WASP-39 b") (Some (js "abc"))
           (eq_refl NaNint)).
Defined.

(** The generator's state after a loop whose body makes [k] calls. *)
Lemma for_each_state {S} (k : nat) (body : nat -> S -> Rand S) (l : list nat) :
  (forall i st s, snd (body i st s) = Nat.iter k lcg s) ->
  forall st s, snd (for_each l body st s) = Nat.iter (length l * k) lcg s.
Proof.
  intros Hbody. induction l as [|i l IH]; intros st s; [reflexivity|].
  cbn [for_each length]. unfold bind.
  destruct (body i st s) as [st1 s1] eqn:E.
  rewrite IH. pose proof (Hbody i st s) as H1. rewrite E in H1. cbn [snd] in H1.
  rewrite H1. cbn [Nat.mul]. rewrite (Nat.add_comm k), Nat.iter_add.
  reflexivity.
Qed.

Section Draws.
Context {num : Type} {N : JSNumber num} {M : MathLib num}.

Lemma gaussianRandom_state (mean stdDev : num) (s : Z) :
  snd (gaussianRandom mean stdDev s) = lcg (lcg s).
Proof. reflexivity. Qed.

Lemma synth_channel_state (j : nat) (st : list (list num) * list num) (s : Z) :
  snd (synth_channel j st s) = Nat.iter 200 lcg s.
Proof.
  unfold synth_channel, bind.
  match goal with
  | |- context [for_each ?l ?body ?st0 s] =>
      pose proof (for_each_state 2 body l) as H;
      destruct (for_each l body st0 s) as [flux' s'] eqn:E
  end.
  cbn [ret snd].
  match type of H with
  | ?P -> _ => assert (Hb : P)
  end.
  { intros i flux s0. unfold bind.
    destruct (gaussianRandom (of_Z 0) (dec 5 4) s0) as [x s1] eqn:G.
    cbn [ret snd]. pose proof (gaussianRandom_state (of_Z 0) (dec 5 4) s0) as Hg.
    rewrite G in Hg. exact Hg. }
  specialize (H Hb (fst st) s). rewrite E in H. cbn [snd] in H.
  rewrite H, length_seq. reflexivity.
Qed.

(** One generation makes 40000 calls of the generator: two per cell. *)
Lemma synthesize_state (s : Z) :
  snd (synthesize s) = Nat.iter 40000 lcg s.
Proof.
  unfold synthesize.
  rewrite (for_each_state 200 synth_channel) by apply synth_channel_state.
  rewrite length_seq. reflexivity.
Qed.

End Draws.

(** ** Invocations in one process *)

Lemma array_set_length (h : list Z) (c : nat) (s : Z) :
  (c < length h)%nat -> length (array_set 0%Z h c s) = length h.
Proof.
  intros H. unfold array_set.
  apply Nat.ltb_lt in H as Hb. rewrite Hb.
  rewrite length_app, length_firstn. cbn [length]. rewrite length_skipn. lia.
Qed.

Lemma array_set_nth (h : list Z) (c : nat) (s : Z) :
  (c < length h)%nat -> nth c (array_set 0%Z h c s) 0%Z = s.
Proof.
  intros H. unfold array_set.
  apply Nat.ltb_lt in H as Hb. rewrite Hb.
  rewrite app_nth2; rewrite length_firstn, Nat.min_l by lia; [|lia].
  rewrite Nat.sub_diag. reflexivity.
Qed.

Lemma array_set_twice (h : list Z) (c : nat) (s s' : Z) :
  (c < length h)%nat ->
  array_set 0%Z (array_set 0%Z h c s) c s' = array_set 0%Z h c s'.
Proof.
  intros H. unfold array_set at 1.
  rewrite array_set_length by exact H.
  apply Nat.ltb_lt in H as Hb. rewrite Hb.
  unfold array_set. rewrite Hb.
  rewrite firstn_app, firstn_firstn, Nat.min_id.
  rewrite length_firstn, Nat.min_l, Nat.sub_diag by lia.
  cbn [firstn]. rewrite app_nil_r. f_equal. f_equal.
  rewrite skipn_app, length_firstn, Nat.min_l by lia.
  rewrite skipn_all2 by (rewrite length_firstn; lia).
  replace (S c - c)%nat with 1%nat by lia. reflexivity.
Qed.

Lemma array_set_same (h : list Z) (c : nat) :
  (c < length h)%nat -> array_set 0%Z h c (nth c h 0%Z) = h.
Proof.
  intros H. unfold array_set.
  apply Nat.ltb_lt in H as Hb. rewrite Hb. clear Hb.
  revert c H. induction h as [|x h IH]; intros c H; [cbn in H; lia|].
  destruct c as [|c]; [reflexivity|].
  cbn [firstn nth skipn app]. f_equal. apply IH. cbn in H. lia.
Qed.

Section Simulation.
Context {num : Type} {N : JSNumber num} {M : MathLib num}.

Lemma runs_on_ret {A} (c : Process.closure) (a : A) :
  Process.runs_on c (ret a) (Process.ret a).
Proof.
  intros h H. unfold Process.ret, ret. cbn [fst snd].
  rewrite array_set_same by exact H. reflexivity.
Qed.

Lemma runs_on_bind {A B} (c : Process.closure) (m : Rand A) (k : A -> Rand B)
    (mh : Process.Run A) (kh : A -> Process.Run B) :
  Process.runs_on c m mh -> (forall a, Process.runs_on c (k a) (kh a)) ->
  Process.runs_on c (bind m k) (Process.bind mh kh).
Proof.
  intros Hm Hk h H. unfold Process.bind, bind.
  rewrite (Hm h H). destruct (m (nth c h 0%Z)) as [a s1]. cbn [fst snd].
  rewrite (Hk a) by (rewrite array_set_length; exact H).
  rewrite array_set_nth, array_set_twice by exact H. reflexivity.
Qed.

Lemma runs_on_call (c : Process.closure) :
  Process.runs_on c (@rand num N) (Process.call c).
Proof. intros h H. reflexivity. Qed.

Lemma runs_on_gaussianRandom (c : Process.closure) (mean stdDev : num) :
  Process.runs_on c (gaussianRandom mean stdDev)
                    (Process.gaussianRandom c mean stdDev).
Proof.
  unfold gaussianRandom, Process.gaussianRandom.
  apply runs_on_bind; [apply runs_on_call|]. intros u1.
  apply runs_on_bind; [apply runs_on_call|]. intros u2.
  apply runs_on_ret.
Qed.

Lemma runs_on_for_each {S} (c : Process.closure)
    (body : nat -> S -> Rand S) (bodyh : nat -> S -> Process.Run S) :
  (forall i st, Process.runs_on c (body i st) (bodyh i st)) ->
  forall l st, Process.runs_on c (for_each l body st) (Process.for_each l bodyh st).
Proof.
  intros Hb. induction l as [|i l IH]; intros st; cbn [for_each Process.for_each].
  - apply runs_on_ret.
  - apply runs_on_bind; [apply Hb|]. intros st'. apply IH.
Qed.

Lemma runs_on_synth_channel (c : Process.closure) (j : nat)
    (st : list (list num) * list num) :
  Process.runs_on c (synth_channel j st) (Process.synth_channel c j st).
Proof.
  unfold synth_channel, Process.synth_channel.
  apply runs_on_bind.
  - apply runs_on_for_each. intros i flux.
    apply runs_on_bind; [apply runs_on_gaussianRandom|]. intros noise.
    apply runs_on_ret.
  - intros flux'. apply runs_on_ret.
Qed.

Lemma runs_on_synthesize (c : Process.closure) :
  Process.runs_on c synthesize (Process.synthesize c).
Proof.
  unfold synthesize, Process.synthesize.
  apply runs_on_for_each. intros j st. apply runs_on_synth_channel.
Qed.

(** One invocation, from any heap: the response is the one computed on the
    closure's own variable, and the heap gains that variable and is
    otherwise as before. *)
Lemma GET_in_process (tgt : js_string) (bin_size : option js_string)
    (h : Process.Heap) :
  Process.GET tgt bin_size h
  = (GET tgt bin_size, h ++ [Nat.iter 40000 lcg (hashString tgt)]).
Proof.
  unfold Process.GET, Process.bind at 1, Process.seededRandom.
  unfold Process.bind.
  rewrite (runs_on_synthesize (length h))
    by (rewrite length_app; cbn [length]; lia).
  rewrite app_nth2, Nat.sub_diag by lia. cbn [nth].
  rewrite synthesize_state.
  unfold GET.
  destruct (synthesize (hashString tgt)) as [[flux raw] s]. cbn [fst snd].
  unfold Process.ret. f_equal.
  unfold array_set.
  replace (length h <? length (h ++ [hashString tgt]))%nat with true
    by (symmetry; apply Nat.ltb_lt; rewrite length_app; cbn [length]; lia).
  rewrite firstn_app, Nat.sub_diag, firstn_all. cbn [firstn].
  rewrite app_nil_r. f_equal.
  rewrite skipn_all2 by (rewrite length_app; cbn [length]; lia).
  reflexivity.
Qed.

End Simulation.

(** C1: invocations of the handler in one process, on every number system
    and for every math library. The heap stands for everything that outlives
    a statement in the process: the captured variables of all closures,
    whoever created them. For a fixed target and bin_size parameter
    - two invocations return equal responses from any two heaps, so nothing
      that earlier or concurrent requests left behind reaches the output;
    - an invocation that follows another one, in the heap the first left,
      returns the same response again;
    - an invocation changes no variable that existed before it: it adds one,
      its own generator's, left at the 40000th state after the hash of the
      name;
    - the response depends on the bin_size parameter through the clamped
      bin size only, and it is the response [GET] studied in the rest of
      this development.
    The pipeline itself does read the heap: run on a closure [c] it returns
    the cube drawn from the value of the variable of [c] and advances that
    variable by 40000 states. The response is independent of the heap
    because [GET] runs it on the closure it has just created. *)
Theorem GET_independent_invocations :
  forall (num : Type) (N : JSNumber num) (M : MathLib num)
         (tgt : js_string) (bin_size : option js_string),
    (forall h1 h2 : Process.Heap,
        fst (Process.GET tgt bin_size h1) = fst (Process.GET tgt bin_size h2))
    /\ (forall h : Process.Heap,
          fst (Process.GET tgt bin_size (snd (Process.GET tgt bin_size h)))
          = fst (Process.GET tgt bin_size h))
    /\ (forall h : Process.Heap,
          snd (Process.GET tgt bin_size h)
          = h ++ [Nat.iter 40000 lcg (hashString tgt)])
    /\ (forall (bin_size' : option js_string) (h h' : Process.Heap),
          binSize_of bin_size = binSize_of bin_size' ->
          fst (Process.GET tgt bin_size h) = fst (Process.GET tgt bin_size' h'))
    /\ (forall h : Process.Heap,
          fst (Process.GET tgt bin_size h) = GET tgt bin_size)
    /\ (forall (c : Process.closure) (h : Process.Heap), (c < length h)%nat ->
          Process.synthesize c h
          = (fst (synthesize (nth c h 0%Z)),
             array_set 0%Z h c (Nat.iter 40000 lcg (nth c h 0%Z)))).
Proof.
  intros num N M tgt bin_size.
  assert (E : forall q h, fst (Process.GET tgt q h) = GET tgt q)
    by (intros q h; rewrite (@GET_in_process num N M tgt q h); reflexivity).
  assert (F : forall q h, snd (Process.GET tgt q h)
                          = h ++ [Nat.iter 40000 lcg (hashString tgt)])
    by (intros q h; rewrite (@GET_in_process num N M tgt q h); reflexivity).
  split; [|split; [|split; [|split; [|split]]]].
  - intros h1 h2. rewrite (E bin_size h1), (E bin_size h2). reflexivity.
  - intros h. rewrite (E bin_size h). cbn [snd]. rewrite !E. reflexivity.
  - intros h. apply F.
  - intros q' h h' Hq. rewrite (E bin_size h), (E q' h').
    unfold GET. rewrite Hq. reflexivity.
  - intros h. apply E.
  - intros c h Hc. rewrite (@runs_on_synthesize num N M c h Hc).
    rewrite synthesize_state. reflexivity.
Qed.

(** ** The flux cube *)

Lemma array_set_push {A} (d : A) (a : list A) (v : A) :
  array_set d a (length a) v = a ++ [v].
Proof.
  unfold array_set. rewrite Nat.ltb_irrefl, Nat.sub_diag. reflexivity.
Qed.

(** A loop over [a, a + n) keeps an invariant of the index, the state of the
    loop and the state of the generator. *)
Lemma for_each_invariant {S} (P : nat -> S -> Z -> Prop)
    (body : nat -> S -> Rand S) (n : nat) :
  forall (a : nat) (st : S) (s : Z),
    P a st s ->
    (forall i st s, (a <= i < a + n)%nat -> P i st s ->
                    P (Datatypes.S i) (fst (body i st s)) (snd (body i st s))) ->
    P (a + n)%nat (fst (for_each (seq a n) body st s))
      (snd (for_each (seq a n) body st s)).
Proof.
  induction n as [|n IH]; intros a st s H0 Hstep.
  - rewrite Nat.add_0_r. exact H0.
  - cbn [seq for_each]. unfold bind.
    pose proof (Hstep a st s ltac:(lia) H0) as H1.
    destruct (body a st s) as [st1 s1]. cbn [fst snd] in H1.
    replace (a + Datatypes.S n)%nat with (Datatypes.S a + n)%nat by lia.
    apply IH; [exact H1|].
    intros i st' s' Hi. apply Hstep. lia.
Qed.

Section FluxCube.
Context {num : Type} {N : JSNumber num} {M : MathLib num}.
Local Open Scope js_scope.

Lemma flux_set_row (flux : list (list num)) (i j : nat) (v : num) :
  (i < length flux)%nat ->
  length (flux_set flux i j v) = length flux
  /\ forall i', nth i' (flux_set flux i j v) []
                = if (i' =? i)%nat then array_set NaN (nth i flux []) j v
                  else nth i' flux [].
Proof.
  intros Hi. unfold flux_set.
  rewrite (nth_error_nth' flux [] Hi).
  assert (Hlen : length (firstn i flux) = i)
    by (rewrite length_firstn; lia).
  split.
  - rewrite length_app. cbn [length]. rewrite Hlen, length_skipn. lia.
  - intros i'. destruct (Nat.eqb_spec i' i) as [->|Hne].
    + rewrite app_nth2 by lia. rewrite Hlen, Nat.sub_diag. reflexivity.
    + destruct (Nat.lt_ge_cases i' i) as [Hlt|Hge].
      * rewrite app_nth1 by lia.
        rewrite <- (firstn_skipn i flux) at 2.
        rewrite app_nth1 by lia. reflexivity.
      * rewrite app_nth2 by lia. rewrite Hlen.
        destruct (i' - i)%nat as [|k] eqn:E; [lia|].
        cbn [nth].
        rewrite <- (firstn_skipn (Datatypes.S i) flux) at 2.
        rewrite app_nth2 by (rewrite length_firstn; lia).
        rewrite length_firstn.
        replace (i' - Nat.min (Datatypes.S i) (length flux))%nat with k by lia.
        reflexivity.
Qed.

Lemma synth_column (seed : Z) (flux0 : list (list num)) (j : nat) (s : Z) :
  s = Nat.iter (2 * (j * nTimes)) lcg seed ->
  length flux0 = nTimes ->
  (forall i, (i < nTimes)%nat -> length (nth i flux0 []) = j) ->
  let body := fun i flux =>
    let baseFlux := transitModel (nth i phase NaN)
                                 (channel_depth (nth j wavelengths NaN)) in
    noise <- gaussianRandom (of_Z 0) (dec 5 4) ;;
    ret (flux_set flux i j (baseFlux + noise)) in
  column_written seed flux0 j nTimes
    (fst (for_each (seq 0 nTimes) body flux0 s))
    (snd (for_each (seq 0 nTimes) body flux0 s)).
Proof.
  intros Hs Hlen Hrows body.
  apply (for_each_invariant (column_written seed flux0 j) body nTimes 0).
  - split; [rewrite Nat.add_0_r; exact Hs|]. split; [exact Hlen|].
    intros i' Hi'. reflexivity.
  - intros i flux s1 Hi (Hs1 & Hl1 & Hr1).
    unfold body, bind.
    destruct (gaussianRandom (of_Z 0) (dec 5 4) s1) as [noise s2] eqn:G.
    cbn [ret fst snd].
    destruct (flux_set_row flux i j
                (transitModel (nth i phase NaN)
                   (channel_depth (nth j wavelengths NaN)) + noise)
                ltac:(lia)) as [L R].
    split; [|split].
    + pose proof (gaussianRandom_state (of_Z 0) (dec 5 4) s1) as Hg.
      rewrite G in Hg. cbn [snd] in Hg. rewrite Hg, Hs1.
      replace (2 * (j * nTimes + Datatypes.S i))%nat
        with (2 + 2 * (j * nTimes + i))%nat by lia.
      rewrite Nat.iter_add. reflexivity.
    + rewrite L. exact Hl1.
    + intros i' Hi'. rewrite R.
      destruct (Nat.eqb_spec i' i) as [->|Hne].
      * rewrite (Hr1 i ltac:(lia)), Nat.ltb_irrefl.
        replace (i <? Datatypes.S i)%nat with true
          by (symmetry; apply Nat.ltb_lt; lia).
        match goal with
        | |- array_set NaN ?row j ?v = _ =>
            pose proof (array_set_push NaN row v) as Hp
        end.
        rewrite (Hrows i ltac:(lia)) in Hp. rewrite Hp.
        unfold cell_value. rewrite <- Hs1, G. reflexivity.
      * rewrite (Hr1 i' Hi').
        destruct (Nat.ltb_spec i' i), (Nat.ltb_spec i' (Datatypes.S i));
          try reflexivity; lia.
Qed.

End FluxCube.

Lemma bind_run {A B} (m : Rand A) (k : A -> Rand B) (s : Z) :
  bind m k s = k (fst (m s)) (snd (m s)).
Proof. unfold bind. destruct (m s). reflexivity. Qed.

Lemma ret_run {A} (a : A) (s : Z) : ret a s = (a, s).
Proof. reflexivity. Qed.

Section FluxCubeWhole.
Context {num : Type} {N : JSNumber num} {M : MathLib num}.
Local Open Scope js_scope.

Lemma synth_channel_step (seed : Z) (j : nat)
    (st : list (list num) * list num) (s : Z) :
  cube_written seed j st s ->
  cube_written seed (S j) (fst (synth_channel j st s))
                          (snd (synth_channel j st s)).
Proof.
  intros (Hs & Hl & Hr & Hraw).
  assert (Hrows : forall i, (i < nTimes)%nat ->
                            length (nth i (fst st) []) = j)
    by (intros i Hi; rewrite (Hr i Hi), length_map, length_seq; reflexivity).
  pose proof (synth_column seed (fst st) j s Hs Hl Hrows) as C.
  cbv zeta in C. unfold synth_channel. cbv zeta. rewrite bind_run.
  cbv beta. rewrite ret_run. unfold cube_written. cbn [fst snd].
  destruct C as (Cs & Cl & Cr).
  split; [|split; [|split]].
  - rewrite Cs. f_equal. lia.
  - exact Cl.
  - intros i Hi. rewrite (Cr i Hi).
    replace (i <? nTimes)%nat with true by (symmetry; apply Nat.ltb_lt; exact Hi).
    rewrite (Hr i Hi), seq_S, map_app. reflexivity.
  - rewrite Hraw, seq_S, map_app. reflexivity.
Qed.

Lemma synthesize_written (seed : Z) :
  cube_written seed nWavelengths (fst (synthesize seed)) (snd (synthesize seed)).
Proof.
  unfold synthesize.
  apply (for_each_invariant (cube_written seed) synth_channel nWavelengths 0).
  - split; [reflexivity|]. split; [apply repeat_length|]. split; [|reflexivity].
    intros i Hi. cbn [fst seq map]. apply nth_repeat.
  - intros j st s _ H. apply synth_channel_step. exact H.
Qed.

End FluxCubeWhole.

(** X1: the flux cube has 100 rows of 200 values; the value at time [i] and
    channel [j] is the transit model at the sample's phase and the channel's
    depth plus the Gaussian noise drawn from the generator state
    [2 * (100 * j + i)] calls after the seed: the cells are drawn channel by
    channel, two calls each. The raw depths are the 200 channel depths in
    ppm. *)
Theorem flux_cube_cells :
  forall (num : Type) (N : JSNumber num) (M : MathLib num) (seed : Z),
    let flux := fst (fst (synthesize seed)) in
    let raw := snd (fst (synthesize seed)) in
    length flux = 100%nat
    /\ Forall (fun row => length row = 200%nat) flux
    /\ (forall i j, (i < 100)%nat -> (j < 200)%nat ->
          cell flux i j = cell_value seed i j)
    /\ raw = map (fun wl => channel_depth wl * of_Z 1000000)%js wavelengths.
Proof.
  intros num N M seed flux raw.
  destruct (synthesize_written seed) as (_ & Hl & Hr & Hraw).
  fold flux in Hl, Hr. fold raw in Hraw.
  split; [exact Hl|]. split; [|split].
  - apply Forall_forall. intros row Hrow.
    destruct (In_nth flux row [] Hrow) as (i & Hi & <-).
    rewrite Hr by (rewrite <- Hl; exact Hi).
    rewrite length_map, length_seq. reflexivity.
  - intros i j Hi Hj. unfold cell. rewrite (Hr i Hi).
    apply nth_map_seq. exact Hj.
  - rewrite Hraw. unfold wavelengths. rewrite map_map.
    apply map_ext_in. intros j Hj. apply in_seq in Hj.
    rewrite nth_map_seq by (unfold nWavelengths in *; lia). reflexivity.
Qed.

Lemma add_infinite (x y : float) :
  y = infinity \/ y = neg_infinity \/ y = nan ->
  PrimFloat.add x y = infinity \/ PrimFloat.add x y = neg_infinity
  \/ PrimFloat.add x y = nan.
Proof.
  intros Hy.
  assert (H : Prim2SF (PrimFloat.add x y) = SFadd prec emax (Prim2SF x) (Prim2SF y))
    by apply add_spec.
  destruct Hy as [-> | [-> | ->]];
    destruct (Prim2SF x) as [[|]|[|]| |[|] m e]; cbn in H;
    try (left; apply Prim2SF_inj; exact H);
    try (right; left; apply Prim2SF_inj; exact H);
    try (right; right; apply Prim2SF_inj; exact H).
Qed.

(** X2: an unguarded zero variate reaches the flux cube. When the generator
    state before the sample of time [i] and channel [j] has successor 0 (and
    [Math.log(0)] is [-Infinity]), the cell [flux[i][j]] is [Infinity],
    [-Infinity] or NaN. *)
Theorem zero_variate_cell :
  forall (M : MathLib float) (seed : Z) (i j : nat),
    (i < 100)%nat -> (j < 200)%nat ->
    Math_log (of_Z 0 : float) = neg_infinity ->
    lcg (Nat.iter (2 * (j * 100 + i)) lcg seed) = 0%Z ->
    let x := cell (fst (fst (synthesize (num := float) seed))) i j in
    x = infinity \/ x = neg_infinity \/ x = nan.
Proof.
  intros M seed i j Hi Hj Hlog Hz x.
  destruct (synthesize_written (num := float) seed) as (_ & _ & Hr & _).
  unfold x, cell. rewrite (Hr i Hi), nth_map_seq by exact Hj.
  unfold cell_value.
  apply add_infinite. apply noise_at_zero; assumption.
Qed.

Lemma zero_variate_cell_witness :
  let x := cell (fst (fst (synthesize (num := float) (M := SampleMath)
                             (hashString (js "K2-18 b"))))) 3 143 in
  x = infinity \/ x = neg_infinity \/ x = nan.
Proof.
  apply (zero_variate_cell SampleMath (hashString (js "K2-18 b")) 3 143).
  - apply Nat.ltb_lt. reflexivity.
  - apply Nat.ltb_lt. reflexivity.
  - reflexivity.
  - vm_compute. reflexivity.
Defined.

(** ** Bounds over the reals *)

Lemma Rpow_js_square (x : R) : Rpow_js x 2 = (x * x)%R.
Proof.
  unfold Rpow_js.
  assert (E : Int_part 2 = 2%Z) by (symmetry; apply Int_part_spec; lra).
  rewrite E. destruct (Req_dec_T 2 2) as [_|H]; [|contradiction].
  simpl. ring.
Qed.

(** X10: the transit model over the reals: between [1 - depth] and 1 at every
    phase for a non-negative depth, and [1 - depth] on the flat bottom
    [|t| <= 0.010]; a NaN phase on binary64 fails both comparisons and is
    treated as mid-transit. *)
Theorem transitModel_bounds :
  (forall t depth : R, (0 <= depth)%R ->
      (1 - depth <= transitModel t depth <= 1)%R)
  /\ (forall t depth : R, (Rabs t <= 10 / 1000)%R ->
        transitModel t depth = (1 - depth)%R)
  /\ (forall depth : float,
        transitModel (NaN : float) depth = (of_Z 1 - depth)%js).
Proof.
  split; [|split].
  - intros t depth Hd. rewrite transitModel_real.
    destruct (Rle_dec (15 / 1000) (Rabs t)) as [H1|H1]; [lra|].
    destruct (Rlt_dec (10 / 1000) (Rabs t)) as [H2|H2]; [|lra].
    set (p := ((Rabs t - 10 / 1000) / (5 / 1000))%R).
    assert (Hp : (0 < p < 1)%R).
    { unfold p. split.
      - apply Rmult_lt_0_compat; lra.
      - apply Rmult_lt_reg_r with (5 / 1000)%R; [lra|].
        unfold Rdiv at 1. rewrite Rmult_assoc, Rinv_l by lra. lra. }
    split; nra.
  - intros t depth H. rewrite transitModel_real.
    destruct (Rle_dec (15 / 1000) (Rabs t)) as [H1|H1]; [lra|].
    destruct (Rlt_dec (10 / 1000) (Rabs t)) as [H2|H2]; [lra|reflexivity].
  - intros depth. reflexivity.
Qed.

Lemma bump_real_le (wl : R) :
  Forall (fun f => (bump wl f <= 6 / 1000)%R) (@ranges R _).
Proof.
  assert (E : forall x s e : R, (0 < s)%R -> (0 <= e <= 6 / 1000)%R ->
              (e * exp (- (Rpow_js x 2) / (2 * Rpow_js s 2)) <= 6 / 1000)%R).
  { intros x s e Hs He. rewrite !Rpow_js_square.
    assert (Hx : (0 <= x * x)%R) by nra.
    assert (Hss : (0 < 2 * (s * s))%R) by nra.
    assert (Ha : (- (x * x) / (2 * (s * s)) <= 0)%R).
    { unfold Rdiv. rewrite <- Ropp_mult_distr_l.
      apply Ropp_le_cancel. rewrite Ropp_involutive, Ropp_0.
      apply Rmult_le_pos; [exact Hx|]. left. apply Rinv_0_lt_compat. exact Hss. }
    assert (Hexp : (exp (- (x * x) / (2 * (s * s))) <= 1)%R).
    { rewrite <- exp_0. destruct Ha as [Ha|Ha].
      - left. apply exp_increasing. exact Ha.
      - rewrite Ha. right. reflexivity. }
    pose proof (exp_pos (- (x * x) / (2 * (s * s)))) as Hpos.
    nra. }
  unfold ranges, molecularEffects. cbn [map snd concat app].
  repeat (apply Forall_cons;
          [ unfold bump;
            cbn [of_Z nadd nsub nmul ndiv nneg Ideal
                 Math_exp Math_pow IdealMath];
            rewrite !dec_real;
            change (10 ^ Z.of_nat 1)%Z with 10%Z;
            change (10 ^ Z.of_nat 2)%Z with 100%Z;
            change (10 ^ Z.of_nat 3)%Z with 1000%Z;
            apply E; lra
          | ]).
  apply Forall_nil.
Qed.

(** The seven ranges are pairwise disjoint: over the reals a wavelength lies
    in at most one of them. *)
Lemma ranges_disjoint (wl : R) : (length (filter (contains wl) ranges) <= 1)%nat.
Proof.
  unfold ranges, molecularEffects. cbn [map snd concat app filter contains].
  rewrite !dec_real. cbn [of_Z nle Ideal].
  change (10 ^ Z.of_nat 1)%Z with 10%Z.
  change (10 ^ Z.of_nat 2)%Z with 100%Z.
  unfold Rleb.
  repeat match goal with
         | |- context [Rle_dec ?a ?b] =>
             destruct (Rle_dec a b); try (exfalso; lra)
         end;
    cbn [andb length]; lia.
Qed.

(** X11: over the reals every channel depth lies between the baseline 0.012 and
    0.018: at most one range contains a wavelength, and its bump is at most
    its extra depth, itself at most 0.006. *)
Theorem channel_depth_bounds :
  forall wl : R,
    (@baseDepth R _ = 12 / 1000)%R
    /\ (length (filter (contains wl) (@ranges R _)) <= 1)%nat
    /\ (12 / 1000 <= @channel_depth R _ _ wl <= 18 / 1000)%R.
Proof.
  intros wl.
  assert (Hb : (@baseDepth R _ = 12 / 1000)%R).
  { unfold baseDepth. rewrite dec_real.
    change (10 ^ Z.of_nat 3)%Z with 1000%Z. reflexivity. }
  split; [exact Hb|]. split; [apply ranges_disjoint|].
  rewrite channel_depth_sum, Hb.
  pose proof (ranges_disjoint wl) as Hd.
  assert (Hle : Forall (fun f => (0 <= bump wl f <= 6 / 1000)%R)
                       (filter (contains wl) ranges)).
  { apply Forall_forall. intros f Hf. apply filter_In in Hf.
    destruct Hf as [Hf _].
    pose proof (bump_real_nonneg wl) as H0. pose proof (bump_real_le wl) as H1.
    rewrite Forall_forall in H0, H1. split; [apply H0|apply H1]; exact Hf. }
  destruct (filter (contains wl) ranges) as [|f [|g l]].
  - simpl. lra.
  - simpl. apply Forall_inv in Hle. cbn [nadd Ideal]. lra.
  - simpl in Hd. lia.
Qed.

(** ** The bin size and the shape of the response *)

(** X5: whatever integer the parameter parses to, the bin size lies in [5, 100],
    so there are between 2 and 40 bins; an integer already in [5, 100] is
    kept. *)
Theorem binSize_clamped :
  forall (bin_size : option js_string) (z : Z),
    parseInt (or_default bin_size (js "20")) = Int z ->
    exists B : Z,
      binSize_of bin_size = Int B
      /\ (5 <= B <= 100)%Z
      /\ ((5 <= z <= 100)%Z -> B = z)
      /\ ((z < 5)%Z -> B = 5%Z) /\ ((100 < z)%Z -> B = 100%Z)
      /\ exists n : Z,
           floor_div (Z.of_nat nWavelengths) (binSize_of bin_size) = Int n
           /\ (2 <= n <= 40)%Z.
Proof.
  intros bin_size z H. exists (Z.min 100 (Z.max 5 z)).
  assert (Hb : binSize_of bin_size = Int (Z.min 100 (Z.max 5 z)))
    by (unfold binSize_of; rewrite H; reflexivity).
  split; [exact Hb|]. split; [lia|]. split; [lia|]. split; [lia|].
  split; [lia|].
  exists (200 / Z.min 100 (Z.max 5 z))%Z. rewrite Hb. split; [reflexivity|].
  set (B := Z.min 100 (Z.max 5 z)). assert (HB : (5 <= B <= 100)%Z) by lia.
  split.
  - apply Z.div_le_lower_bound; lia.
  - apply Z.div_le_upper_bound; lia.
Qed.

Lemma binSize_clamped_witness :
  exists B : Z,
    binSize_of (Some (js " 7px")) = Int B
    /\ (5 <= B <= 100)%Z
    /\ ((5 <= 7 <= 100)%Z -> B = 7%Z)
    /\ ((7 < 5)%Z -> B = 5%Z) /\ ((100 < 7)%Z -> B = 100%Z)
    /\ exists n : Z,
         floor_div (Z.of_nat nWavelengths) (binSize_of (Some (js " 7px"))) = Int n
         /\ (2 <= n <= 40)%Z.
Proof.
  exact (binSize_clamped (Some (js " 7px")) 7 (eq_refl (Int 7))).
Defined.

(** X6: a missing bin_size parameter and an empty one are served as bin_size=20:
    the same response, with 10 bins. *)
Theorem default_bin_size :
  forall (num : Type) (N : JSNumber num) (M : MathLib num) (tgt : js_string),
    binSize_of None = Int 20
    /\ GET tgt None = GET tgt (Some (js "20"))
    /\ GET tgt (Some []) = GET tgt (Some (js "20"))
    /\ length (wavelengths_out (GET tgt None)) = 10%nat.
Proof.
  intros num N M tgt.
  assert (H0 : binSize_of None = Int 20) by (vm_compute; reflexivity).
  assert (H1 : binSize_of (Some []) = Int 20) by (vm_compute; reflexivity).
  assert (H2 : binSize_of (Some (js "20")) = Int 20)
    by (vm_compute; reflexivity).
  split; [exact H0|]. unfold GET. rewrite H0, H1, H2.
  split; [reflexivity|]. split; [reflexivity|].
  destruct (fst (synthesize (hashString tgt))) as [flux raw].
  cbn [wavelengths_out bin wavelengthsBinned].
  rewrite length_map, length_seq. reflexivity.
Qed.

Lemma bin_flux_shape {num} {N : JSNumber num} (binSize : jsint)
    (wls depth err : list num) (flux : list (list num)) :
  length (fluxBinned (bin binSize wls depth err flux)) = nTimes
  /\ Forall (fun row => length row
                        = trips (floor_div (Z.of_nat nWavelengths) binSize))
            (fluxBinned (bin binSize wls depth err flux)).
Proof.
  cbn [bin fluxBinned]. split.
  - rewrite length_map, length_seq. reflexivity.
  - apply Forall_forall. intros row Hrow. apply in_map_iff in Hrow.
    destruct Hrow as (i & <- & _). rewrite length_map, length_seq. reflexivity.
Qed.

(** X3: the shape of every response: the three sequences of the transmission
    spectrum and every row of the binned flux cube have one entry per bin,
    the binned cube and the light curve one entry per phase sample, and the
    two wavelength sequences and the two phase sequences coincide. *)
Theorem response_shape :
  forall (num : Type) (N : JSNumber num) (M : MathLib num)
         (tgt : js_string) (bin_size : option js_string),
    let r := GET tgt bin_size in
    let nBins := trips (floor_div (Z.of_nat nWavelengths) (binSize_of bin_size)) in
    target r = tgt
    /\ length (wavelengths_out r) = nBins
    /\ length (transit_depth_ppm (transmission_spectrum r)) = nBins
    /\ length (transit_depth_err_ppm (transmission_spectrum r)) = nBins
    /\ ts_wavelengths (transmission_spectrum r) = wavelengths_out r
    /\ length (flux_out r) = 100%nat
    /\ Forall (fun row => length row = nBins) (flux_out r)
    /\ length (phase_out r) = 100%nat
    /\ lightcurve_phase r = phase_out r
    /\ length (lightcurve_flux r) = 100%nat.
Proof.
  intros num N M tgt bin_size r nBins. unfold r, GET.
  destruct (fst (synthesize (hashString tgt))) as [flux raw].
  cbn [target wavelengths_out transmission_spectrum ts_wavelengths
       transit_depth_ppm transit_depth_err_ppm flux_out phase_out
       lightcurve_phase lightcurve_flux].
  match goal with
  | |- context [fluxBinned (bin ?b ?w ?d ?e ?f)] =>
      destruct (bin_flux_shape b w d e f) as [Hl Hrows]
  end.
  fold nBins in Hrows.
  split; [reflexivity|].
  split; [cbn [bin wavelengthsBinned]; rewrite length_map, length_seq;
          reflexivity|].
  split; [cbn [bin transitDepthBinned]; rewrite length_map, length_seq;
          reflexivity|].
  split; [cbn [bin transitDepthErrBinned]; rewrite length_map, length_seq;
          reflexivity|].
  split; [reflexivity|]. split; [exact Hl|]. split; [exact Hrows|].
  split; [apply length_phase|]. split; [reflexivity|].
  unfold lightcurve. rewrite length_map, length_seq. reflexivity.
Qed.

Section LightCurve.
Context {num : Type} {N : JSNumber num}.
Local Open Scope js_scope.

(** The light curve is the mean of each row of the binned cube. *)
Lemma lightcurve_rows (n : Z) (fluxB : list (list num)) :
  (0 <= n)%Z -> length fluxB = nTimes ->
  Forall (fun row => length row = Z.to_nat n) fluxB ->
  lightcurve (Int n) fluxB = map (fun row => average row n) fluxB.
Proof.
  intros Hn Hl Hrows. unfold lightcurve. cbn [trips to_num].
  transitivity (map (fun row => average row n)
                    (map (fun i => nth i fluxB []) (seq 0 nTimes))).
  - rewrite map_map. apply map_ext_in. intros i Hi. apply in_seq in Hi.
    unfold average, cell. f_equal.
    rewrite (fold_left_map_r nadd (fun j => nth j (nth i fluxB []) NaN)).
    rewrite map_nth_seq, firstn_all2; [reflexivity| |].
    + rewrite Forall_forall in Hrows. rewrite (Hrows (nth i fluxB [])); [lia|].
      apply nth_In. lia.
    + rewrite Forall_forall in Hrows. rewrite (Hrows (nth i fluxB [])); [lia|].
      apply nth_In. lia.
  - rewrite map_nth_seq by lia. rewrite <- Hl, firstn_all. reflexivity.
Qed.

End LightCurve.

(** X4: when the bin size is a number [B] (then an integer of [5, 100]),
    each of the 100 light-curve values is the unweighted mean, over the
    [floor(200 / B)] bins, of that time sample's row of the binned flux
    cube. *)
Theorem lightcurve_is_row_mean :
  forall (num : Type) (N : JSNumber num) (M : MathLib num)
         (tgt : js_string) (bin_size : option js_string) (B : Z),
    binSize_of bin_size = Int B ->
    let r := GET tgt bin_size in
    lightcurve_flux r = map (fun row => average row (200 / B)) (flux_out r).
Proof.
  intros num N M tgt bin_size B HB r.
  assert (Hr : (5 <= B <= 100)%Z).
  { unfold binSize_of in HB.
    destruct (parseInt (or_default bin_size (js "20"))) as [|z];
      [discriminate|].
    cbn [Math_max Math_min] in HB. injection HB as <-. lia. }
  unfold r, GET. rewrite HB.
  destruct (fst (synthesize (hashString tgt))) as [flux raw].
  cbn [flux_out lightcurve_flux floor_div].
  match goal with
  | |- context [fluxBinned (bin ?b ?w ?d ?e ?f)] =>
      destruct (bin_flux_shape b w d e f) as [Hl Hrows]
  end.
  cbn [floor_div trips] in Hrows.
  change (Z.of_nat nWavelengths) with 200%Z in *.
  apply lightcurve_rows; [apply Z.div_pos; lia|exact Hl|exact Hrows].
Qed.

Lemma lightcurve_is_row_mean_witness :
  let r := GET (num := float) (M := SampleMath) (js "WASP-39 b") (Some (js "7")) in
  lightcurve_flux r = map (fun row => average row (200 / 7)) (flux_out r).
Proof.
  exact (lightcurve_is_row_mean float Float64 SampleMath (js "WASP-39 b")
           (Some (js "7")) 7 (eq_refl (Int 7))).
Defined.

(** ** The integer model of the bin count, against binary64 *)

Lemma bin_count_agrees_all : all_from 96 5 bin_count_agrees = true.
Proof. vm_compute. reflexivity. Qed.

Lemma ltb_nan_r (x : float) : PrimFloat.ltb x nan = false.
Proof.
  rewrite ltb_spec. unfold SFltb.
  destruct (Prim2SF x) as [[|]|[|]| |[|] m e]; reflexivity.
Qed.

(** X7: the handler computes the bin count and its loop tests in binary64; the
    integer model agrees with it. For every integer bin size [B] in
    [5, 100], [Math.floor(200 / B)] on binary64 is the integer quotient (the
    rounding of the division never crosses an integer), and for every counter
    [k] up to 200 the test [k < B] on binary64 is the integer comparison; a
    test against NaN is false for every number. *)
Theorem bin_count_binary64 :
  forall B : Z, (5 <= B <= 100)%Z ->
    float_floor (of_Z 200 / of_Z B)%js = of_Z (200 / B)
    /\ (forall k : Z, (0 <= k <= 200)%Z ->
          (of_Z k <? (of_Z B : float))%js = (k <? B)%Z)
    /\ (forall x : float, (x <? NaN)%js = false).
Proof.
  intros B HB.
  pose proof (all_from_spec _ _ _ bin_count_agrees_all B) as H.
  change (Z.of_nat 96) with 96%Z in H. specialize (H ltac:(lia)).
  unfold bin_count_agrees in H. apply andb_prop in H. destruct H as [H1 H2].
  split; [|split].
  - apply FloatAxioms.Leibniz.eqb_spec. exact H1.
  - intros k Hk.
    pose proof (all_from_spec _ _ _ H2 k) as H3.
    change (Z.of_nat 201) with 201%Z in H3. specialize (H3 ltac:(lia)).
    apply Bool.eqb_prop. exact H3.
  - intros x. apply ltb_nan_r.
Qed.

Lemma bin_count_binary64_witness :
  float_floor (of_Z 200 / of_Z 7)%js = (of_Z 28 : float).
Proof.
  exact (proj1 (bin_count_binary64 7 (conj (Zle_bool_imp_le 5 7 eq_refl)
                                            (Zle_bool_imp_le 7 100 eq_refl)))).
Defined.

(** ** The period of the generator *)

Lemma visit_sound (n : nat) :
  forall (s : Z) (k : N) (tbl : PositiveMap.t N),
    s = Nat.iter (N.to_nat k) lcg 0%Z -> (0 <= s)%Z ->
    table_sound tbl -> table_sound (visit n s k tbl).
Proof.
  induction n as [|n IH]; intros s k tbl Hs H0 Ht; [exact Ht|].
  cbn [visit]. apply IH.
  - rewrite N2Nat.inj_succ, Nat.iter_succ, <- Hs. reflexivity.
  - apply lcg_range. exact H0.
  - intros p k' Hf.
    destruct (Pos.eq_dec p (Z.to_pos (s + 1))) as [->|Hne].
    + rewrite PositiveMap.gss in Hf. injection Hf as <-.
      rewrite <- Hs. rewrite Z2Pos.id by lia. reflexivity.
    + rewrite PositiveMap.gso in Hf by exact Hne. apply Ht. exact Hf.
Qed.

Lemma reached_all : all_from 233280 0 reached = true.
Proof. vm_compute. reflexivity. Qed.

Lemma cycle_closes : Nat.iter 233280 lcg 0%Z = 0%Z.
Proof. vm_compute. reflexivity. Qed.

Lemma orbit_from_zero (r : Z) :
  (0 <= r < 233280)%Z ->
  exists k : nat, (k < 233280)%nat /\ Nat.iter k lcg 0%Z = r.
Proof.
  intros Hr.
  assert (Hn : Z.of_nat 233280 = 233280%Z) by (vm_compute; reflexivity).
  pose proof (all_from_spec _ _ _ reached_all r) as H. rewrite Hn in H.
  specialize (H ltac:(lia)). unfold reached in H.
  destruct (PositiveMap.find (Z.to_pos (r + 1)) orbit_table) as [k|] eqn:E;
    [|discriminate].
  assert (S : table_sound orbit_table).
  { apply visit_sound; [reflexivity|lia|].
    intros p k' Hf. rewrite PositiveMap.gempty in Hf. discriminate. }
  apply S in E. rewrite Z2Pos.id in E by lia.
  exists (N.to_nat k). split; [|lia].
  apply N.ltb_lt in H.
  apply Nat2Z.inj_lt. rewrite Hn, N_nat_Z. lia.
Qed.

Lemma orbit_between (s r : Z) :
  (0 <= s < 233280)%Z -> (0 <= r < 233280)%Z ->
  exists k : nat, (k < 233280)%nat /\ Nat.iter k lcg s = r.
Proof.
  intros Hs Hr.
  destruct (orbit_from_zero s Hs) as (a & Ha & <-).
  destruct (orbit_from_zero r Hr) as (b & Hb & <-).
  pose proof cycle_closes as C.
  remember 233280%nat as m eqn:Em. clear Em Hs Hr.
  destruct (Nat.le_gt_cases a b) as [Hab|Hab].
  - exists (b - a)%nat. split; [lia|].
    rewrite <- Nat.iter_add. f_equal. lia.
  - exists (m - a + b)%nat. split; [lia|].
    rewrite <- Nat.iter_add.
    replace (m - a + b + a)%nat with (b + m)%nat by lia.
    rewrite Nat.iter_add, C. reflexivity.
Qed.

(** X9: the generator has full period: from every state in [0, 233280) every
    state is reached in fewer than 233280 calls. So whatever the seed, one of
    the first 233281 calls returns exactly 0 (the state 22643 is reached,
    and the call after it gives 0). *)
Theorem lcg_full_period :
  (forall s r : Z, (0 <= s < 233280)%Z -> (0 <= r < 233280)%Z ->
      exists k : nat, (k < 233280)%nat /\ Nat.iter k lcg s = r)
  /\ (forall seed : Z, (0 <= seed)%Z ->
        exists n : nat, (n <= 233280)%nat
          /\ Nat.iter n lcg seed = 22643%Z
          /\ fst (@rand float _ (Nat.iter n lcg seed)) = of_Z 0).
Proof.
  split; [exact orbit_between|].
  intros seed Hseed.
  destruct (orbit_between (lcg seed) 22643 (lcg_range seed Hseed) ltac:(lia))
    as (k & Hk & E).
  exists (S k). split; [lia|].
  assert (E' : Nat.iter (S k) lcg seed = 22643%Z).
  { rewrite <- E. clear. induction k as [|k IH]; [reflexivity|].
    rewrite Nat.iter_succ, IH. rewrite Nat.iter_succ. reflexivity. }
  split; [exact E'|]. rewrite E'. vm_compute. reflexivity.
Qed.
